(** * login-brute.py: a shallow embedding of the login tester

    The development follows [src/login-brute.py]: the Python values stored
    in result dictionaries, insertion-ordered dictionaries, the response
    classifier [_is_successful_login], one attempt [test_login], the two
    schedulers behind [run_tests], the report, the CSV/JSON sink and the
    credential file loader.

    Conventions.
    - A Python [str] is a [string]; every [ascii] stands for one code point
      below 256.
    - A Python [dict] is an association list in insertion order with
      distinct keys; the order matters because the CSV header is
      [results[0].keys()].
    - [requests.post] is the only contact with the outside world.  It is an
      oracle [Net] that answers the [i]-th submitted request either with a
      response or with a raised exception.
    - A raised Python exception is a value of [Py.Exn]; code that may raise
      lives in the error monad [Exc].
    - [print] calls do not influence any returned value and are left out;
      of [time.sleep] the exceptions are kept, not the time it takes. *)

From Stdlib Require Import String Ascii List ZArith QArith Bool Arith Lia.
From Stdlib Require Import Permutation DecimalString.
Import ListNotations.

Close Scope Q_scope.
Open Scope string_scope.
Open Scope list_scope.

(** ** Python values and exceptions *)

Module Py.

(** The values that occur in a result dictionary.  A Python [float] only
    arises as [round(response_time, 3)]; it is kept as a whole number of
    thousandths of a second. *)
Inductive Val : Type :=
| VNone
| VBool (b : bool)
| VInt (z : Z)
| VFloat (thousandths : Z)
| VStr (s : string).

(** Exceptions, by the class that the [except] clauses of the program
    distinguish.  [RequestException] is the class caught in [test_login];
    [OtherException] stands for any other subclass of [Exception]. *)
Inductive Exn : Type :=
| RequestException (msg : string)
| ValueError (msg : string)
| KeyError (key : string)
| ZeroDivisionError
| OtherException (msg : string).

(** [str(e)] for an exception. *)
Definition str_exn (e : Exn) : string :=
  match e with
  | RequestException m => m
  | ValueError m => m
  | KeyError k => "'" ++ k ++ "'"
  | ZeroDivisionError => "division by zero"
  | OtherException m => m
  end.

(** The error monad: a computation returns or raises. *)
Inductive Exc (A : Type) : Type :=
| Ok (a : A)
| Raise (e : Exn).
Arguments Ok {A} a.
Arguments Raise {A} e.

Definition bind {A B : Type} (c : Exc A) (k : A -> Exc B) : Exc B :=
  match c with
  | Ok a => k a
  | Raise e => Raise e
  end.

(** Truth value testing, as used by [if x], [x and y] and [not x]. *)
Definition truthy (v : Val) : bool :=
  match v with
  | VNone => false
  | VBool b => b
  | VInt z => negb (z =? 0)%Z
  | VFloat t => negb (t =? 0)%Z
  | VStr s => negb (s =? "")
  end.

(** Truth value of an optional string ([None] or a [str]). *)
Definition truthy_opt (o : option string) : bool :=
  match o with
  | None => false
  | Some s => negb (s =? "")
  end.

(** [needle in hay] on strings: [needle] occurs as a contiguous substring. *)
Fixpoint str_in (needle hay : string) : bool :=
  prefix needle hay ||
  match hay with
  | EmptyString => false
  | String _ rest => str_in needle rest
  end.

(** Decimal digits of a fraction given in thousandths (0..999), as [repr]
    prints them: trailing zeros dropped, one digit at least. *)
Definition digit (n : Z) : string :=
  String (ascii_of_nat (48 + Z.to_nat n)) EmptyString.

Definition frac_digits (m : Z) : string :=
  let a := (m / 100)%Z in
  let b := ((m / 10) mod 10)%Z in
  let c := (m mod 10)%Z in
  if (c =? 0)%Z then
    if (b =? 0)%Z then digit a else digit a ++ digit b
  else digit a ++ digit b ++ digit c.

Definition str_int (z : Z) : string :=
  NilZero.string_of_int (Z.to_int z).

Definition str_float (t : Z) : string :=
  (if (t <? 0)%Z then "-" else "") ++
  str_int (Z.abs t / 1000) ++ "." ++ frac_digits (Z.abs t mod 1000).

(** [str(v)]. *)
Definition str (v : Val) : string :=
  match v with
  | VNone => "None"
  | VBool true => "True"
  | VBool false => "False"
  | VInt z => str_int z
  | VFloat t => str_float t
  | VStr s => s
  end.

End Py.

Import Py.

Notation "x <- c ;; k" := (bind c (fun x => k))
  (at level 61, c at next level, right associativity).
Notation "c ;; k" := (bind c (fun _ => k))
  (at level 61, right associativity).

(** ** Insertion-ordered dictionaries *)

Module Dict.

Definition t : Type := list (string * Val).

Definition empty : t := [].

(** [d.get(k)]: [None] stands for a missing key. *)
Fixpoint get (k : string) (d : t) : option Val :=
  match d with
  | [] => None
  | (k', v) :: rest => if k' =? k then Some v else get k rest
  end.

(** [d[k] = v]: an existing key keeps its position, a new one goes last. *)
Fixpoint set (k : string) (v : Val) (d : t) : t :=
  match d with
  | [] => [(k, v)]
  | (k', v') :: rest =>
      if k' =? k then (k', v) :: rest else (k', v') :: set k v rest
  end.

(** [d.update(u)], and the dictionary display [{k1: v1, ...}], which both
    store the items from left to right. *)
Definition update (d u : t) : t :=
  fold_left (fun acc kv => set (fst kv) (snd kv) acc) u d.

Definition literal (items : t) : t := update empty items.

Definition keys (d : t) : list string := map fst d.

Definition mem (k : string) (ks : list string) : bool :=
  existsb (fun k' => k' =? k) ks.

(** [d[k]]: raises [KeyError] on a missing key. *)
Definition item (k : string) (d : t) : Exc Val :=
  match get k d with
  | Some v => Ok v
  | None => Raise (KeyError k)
  end.

End Dict.

(** ** Configuration, requests and the network oracle *)

Record Response : Type := mkResponse {
  status_code : Z;
  text : string
}.

Record Request : Type := mkRequest {
  req_url : string;
  req_data : Dict.t;
  req_headers : list (string * string);
  req_timeout : Z
}.

(** What one call of [requests.post] does: it returns a response, measured
    to have taken [elapsed] thousandths of a second after rounding, or it
    raises. *)
Inductive Reply : Type :=
| Completed (response : Response) (elapsed : Z)
| Raised (e : Exn).

(** The oracle: the reply to the request of the attempt with submission
    index [i] (its position in [test_combinations], from 0). *)
Definition Net : Type := nat -> Request -> Reply.

(** The attributes that [LoginTester.__init__] stores. *)
Record LoginTester : Type := mkLoginTester {
  url : string;
  username_field : string;
  password_field : string;
  success_indicator : option string;
  failure_indicator : option string;
  headers : list (string * string);
  timeout : Z;
  delay : Q;
  max_workers : Z
}.

Definition default_headers : list (string * string) :=
  [("User-Agent",
    "Mozilla/5.0 (Windows NT 10.0; Win64; x64) AppleWebKit/537.36 (KHTML, like Gecko) Chrome/91.0.4472.124 Safari/537.36");
   ("Content-Type", "application/x-www-form-urlencoded")].

(** [LoginTester(url, ...)]: [headers or {...}] replaces a missing or empty
    header dictionary by the default one. *)
Definition new_LoginTester (url : string) (username_field password_field : string)
    (success_indicator failure_indicator : option string)
    (headers : option (list (string * string)))
    (timeout : Z) (delay : Q) (max_workers : Z) : LoginTester :=
  mkLoginTester url username_field password_field
    success_indicator failure_indicator
    (match headers with
     | Some (h :: hs) => h :: hs
     | _ => default_headers
     end)
    timeout delay max_workers.

(** ** The classifier *)

(** [_is_successful_login]: the three tests in source order. *)
Definition _is_successful_login (self : LoginTester) (response : Response) : bool :=
  if truthy_opt (success_indicator self) &&
     match success_indicator self with
     | Some s => str_in s (text response)
     | None => false
     end
  then true
  else if truthy_opt (failure_indicator self) &&
          match failure_indicator self with
          | Some s => str_in s (text response)
          | None => false
          end
  then false
  else if (status_code response =? 200)%Z then true
  else false.

(** ** One attempt *)

(** [test_login].  [call] is the submission index handed to the oracle; it
    is not a parameter of the Python method.  Only [RequestException] is
    caught; any other exception leaves the method. *)
Definition test_login (self : LoginTester) (net : Net) (call : nat)
    (username password : string) : Exc Dict.t :=
  let data := Dict.literal [(username_field self, VStr username);
                            (password_field self, VStr password)] in
  let result := Dict.literal [("username", VStr username);
                              ("password", VStr password);
                              ("success", VBool false);
                              ("status_code", VNone);
                              ("response_time", VNone);
                              ("error", VNone)] in
  match net call (mkRequest (url self) data (headers self) (timeout self)) with
  | Completed response response_time =>
      Ok (Dict.update result
            [("status_code", VInt (status_code response));
             ("response_time", VFloat response_time);
             ("success", VBool (_is_successful_login self response));
             ("response_length", VInt (Z.of_nat (String.length (text response))))])
  | Raised (RequestException m) =>
      Ok (Dict.set "error" (VStr (str_exn (RequestException m))) result)
  | Raised e => Raise e
  end.

(** ** The schedulers *)

(** [[(u, p) for u in usernames for p in passwords]]. *)
Definition test_combinations (usernames passwords : list string)
    : list (string * string) :=
  flat_map (fun u => map (fun p => (u, p)) passwords) usernames.

(** The bounds of the signed 64-bit count of nanoseconds into which
    [time.sleep] converts its argument. *)
Definition PyTime_MIN : Q := inject_Z (-9223372036854775808).
Definition PyTime_MAX : Q := inject_Z 9223372036854775807.

(** [time.sleep(seconds)].  The length is first converted to nanoseconds:
    outside the 64-bit range this raises [OverflowError], which stands
    among the other exceptions.  Then a negative length raises
    [ValueError].  The conversion is taken on the exact value: the rounding
    of the floating-point product, which decides within a few thousand
    nanoseconds of the two bounds, is not modelled, and a rational length
    is never an infinity or a NaN. *)
Definition sleep (seconds : Q) : Exc unit :=
  let nanoseconds := (seconds * inject_Z 1000000000)%Q in
  if Qle_bool PyTime_MIN nanoseconds && Qle_bool nanoseconds PyTime_MAX then
    if Qle_bool 0 seconds then Ok tt
    else Raise (ValueError "sleep length must be non-negative")
  else Raise (OtherException "timestamp too large to convert to C _PyTime_t").

(** The [for] loop of [_run_sequential].  [n] is [len(test_combinations)],
    [k] counts the attempts made so far (the loop variable [i] of the source
    is [k + 1]) and [results] is the list being appended to.  An exception
    that escapes [test_login] or [time.sleep] ends the loop and the
    method. *)
Fixpoint _run_sequential_loop (self : LoginTester) (net : Net) (n k : nat)
    (todo : list (string * string)) (results : list Dict.t)
    : Exc (list Dict.t) :=
  match todo with
  | [] => Ok results
  | (username, password) :: rest =>
      result <- test_login self net k username password ;;
      (if (S k <? n)%nat then sleep (delay self) else Ok tt) ;;
      _run_sequential_loop self net n (S k) rest (results ++ [result])
  end.

Definition _run_sequential (self : LoginTester) (net : Net)
    (test_combinations : list (string * string)) : Exc (list Dict.t) :=
  _run_sequential_loop self net (length test_combinations) 0
    test_combinations [].

(** [ThreadPoolExecutor(max_workers=...)]: the constructor refuses a worker
    count that is not positive. *)
Definition ThreadPoolExecutor (max_workers : Z) : Exc unit :=
  if (max_workers <=? 0)%Z
  then Raise (ValueError "max_workers must be greater than 0")
  else Ok tt.

(** [future_to_creds]: one future per submitted pair, in submission order; a
    finished future holds what its [test_login] call returned or raised. *)
Definition future_to_creds (self : LoginTester) (net : Net)
    (test_combinations : list (string * string))
    : list (Exc Dict.t * (string * string)) :=
  map (fun kc => (test_login self net (fst kc) (fst (snd kc)) (snd (snd kc)),
                  snd kc))
      (combine (seq 0 (length test_combinations)) test_combinations).

(** The body of the [for ... in as_completed(...)] loop for the future with
    submission index [k]: [future.result()] returns the dictionary or
    re-raises, and the [except Exception] clause appends a four-key record. *)
Definition collect_future (futures : list (Exc Dict.t * (string * string)))
    (results : list Dict.t) (k : nat) : list Dict.t :=
  match nth_error futures k with
  | None => results
  | Some (Ok result, _) => results ++ [result]
  | Some (Raise e, (username, password)) =>
      results ++ [Dict.literal [("username", VStr username);
                                ("password", VStr password);
                                ("success", VBool false);
                                ("error", VStr (str_exn e))]]
  end.

(** [_run_parallel].  [completion] is the order in which [as_completed]
    yields the futures, as submission indices; the thread pool decides it. *)
Definition _run_parallel (self : LoginTester) (net : Net)
    (completion : list nat) (test_combinations : list (string * string))
    : Exc (list Dict.t) :=
  ThreadPoolExecutor (max_workers self) ;;
  Ok (fold_left (collect_future (future_to_creds self net test_combinations))
                completion []).

(** [as_completed] yields every submitted future exactly once. *)
Definition completion_order (completion : list nat) (n : nat) : Prop :=
  Permutation completion (seq 0 n).

(** [run_tests]. *)
Definition run_tests (self : LoginTester) (net : Net) (completion : list nat)
    (usernames passwords : list string) (parallel : bool)
    : Exc (list Dict.t) :=
  let combos := test_combinations usernames passwords in
  if parallel then _run_parallel self net completion combos
  else _run_sequential self net combos.

(** ** The outcome of an attempt *)

Inductive Outcome : Type := Success | Failure | Error.

(** The outcome that the path taken by an attempt determines: the
    classifier's verdict when the transport call completed, [Error] when it
    raised. *)
Definition attempt_outcome (self : LoginTester) (reply : Reply) : Outcome :=
  match reply with
  | Completed response _ =>
      if _is_successful_login self response then Success else Failure
  | Raised _ => Error
  end.

(** A field is set when the record has it with a value other than [None]. *)
Definition field_set (k : string) (r : Dict.t) : bool :=
  match Dict.get k r with
  | Some VNone | None => false
  | Some _ => true
  end.

Definition success_flag (r : Dict.t) : bool :=
  match Dict.get "success" r with
  | Some v => truthy v
  | None => false
  end.

(** The outcome as a reader of the record sees it. *)
Definition record_outcome (r : Dict.t) : Outcome :=
  if success_flag r then Success
  else if field_set "error" r then Error
  else Failure.

(** The invariant of the data model on one record. *)
Definition record_invariant (r : Dict.t) : Prop :=
  (field_set "error" r = true <-> record_outcome r = Error) /\
  (field_set "status_code" r = true <->
     (record_outcome r = Success \/ record_outcome r = Failure)).

(** ** The report *)

(** [a / b] on integers: true division, [ZeroDivisionError] on a zero
    divisor.  The quotient is kept exact. *)
Definition truediv (a b : Z) : Exc Q :=
  if (b =? 0)%Z then Raise ZeroDivisionError
  else Ok (inject_Z a / inject_Z b)%Q.

Fixpoint mapM {A B : Type} (f : A -> Exc B) (l : list A) : Exc (list B) :=
  match l with
  | [] => Ok []
  | a :: rest => b <- f a ;; bs <- mapM f rest ;; Ok (b :: bs)
  end.

(** What [generate_report] prints: the three counts, the rate in percent
    (before it is formatted with one decimal) and the lines of the
    successful credentials. *)
Record Report : Type := mkReport {
  total : Z;
  successful : Z;
  failed : Z;
  success_rate_percent : Q;
  credentials : list string
}.

(** [generate_report]: [None] is the early return on an empty list. *)
Definition generate_report (results : list Dict.t) : Exc (option Report) :=
  match results with
  | [] => Ok None
  | _ :: _ =>
      let total := Z.of_nat (length results) in
      let successful := Z.of_nat (length (filter success_flag results)) in
      let failed := (total - successful)%Z in
      quotient <- truediv successful total ;;
      lines <- (if (successful >? 0)%Z
                then mapM (fun result =>
                             u <- Dict.item "username" result ;;
                             p <- Dict.item "password" result ;;
                             Ok (str u ++ ":" ++ str p)%string)
                          (filter success_flag results)
                else Ok []) ;;
      Ok (Some (mkReport total successful failed (quotient * 100)%Q lines))
  end.

(** ** The persistence sink *)

Definition is_dot (c : ascii) : bool := (c =? ".")%char.

(** [s.split('.')[-1]]: what follows the last dot, or all of [s]. *)
Fixpoint last_piece (piece s : string) : string :=
  match s with
  | EmptyString => piece
  | String c rest =>
      if is_dot c then last_piece "" rest
      else last_piece (piece ++ String c "") rest
  end.

(** [str.lower] on code points below 256. *)
Definition lower_char (c : ascii) : ascii :=
  let n := nat_of_ascii c in
  if (((65 <=? n) && (n <=? 90)) ||
      ((192 <=? n) && (n <=? 222) && negb (n =? 215)))%nat
  then ascii_of_nat (n + 32) else c.

Fixpoint lower (s : string) : string :=
  match s with
  | EmptyString => EmptyString
  | String c rest => String (lower_char c) (lower rest)
  end.

(** The cell that the CSV writer stores for a value: [None] is written as
    the empty string, anything else as [str(value)]. *)
Definition csv_field (v : Val) : string :=
  match v with
  | VNone => ""
  | _ => str v
  end.

Fixpoint join (sep : string) (l : list string) : string :=
  match l with
  | [] => ""
  | [x] => x
  | x :: rest => x ++ sep ++ join sep rest
  end.

(** [csv.DictWriter._dict_to_list] with the defaults that [save_results]
    leaves in place ([extrasaction='raise'], [restval='']): a key outside
    the field names raises [ValueError]; a missing field is empty. *)
Definition _dict_to_list (fieldnames : list string) (rowdict : Dict.t)
    : Exc (list string) :=
  match filter (fun k => negb (Dict.mem k fieldnames)) (Dict.keys rowdict) with
  | [] =>
      Ok (map (fun key => match Dict.get key rowdict with
                          | Some v => csv_field v
                          | None => csv_field (VStr "")
                          end)
              fieldnames)
  | wrong_fields =>
      Raise (ValueError ("dict contains fields not in fieldnames: " ++
                         join ", " (map (fun k => "'" ++ k ++ "'")%string
                                        wrong_fields))%string)
  end.

(** What [save_results] leaves in the output file when it returns. *)
Inductive Written : Type :=
| NothingWritten
| JsonDocument (records : list Dict.t)
| CsvDocument (header : list string) (rows : list (list string)).

(** [save_results]. *)
Definition save_results (results : list Dict.t) (output_file : string)
    : Exc Written :=
  let file_extension := lower (last_piece "" output_file) in
  if file_extension =? "json" then Ok (JsonDocument results)
  else if file_extension =? "csv" then
    match results with
    | [] => Ok NothingWritten
    | first :: _ =>
        let fieldnames := Dict.keys first in
        rows <- mapM (_dict_to_list fieldnames) results ;;
        Ok (CsvDocument fieldnames rows)
    end
  else Raise (ValueError ("Unsupported file format: " ++ file_extension)%string).

(** Reading a CSV document back with [csv.DictReader]: every row becomes
    the pairing of the header with its cells.  The reader belongs to the
    Python library, not to the program. *)
Definition read_back (w : Written) : list (list (string * string)) :=
  match w with
  | CsvDocument header rows => map (combine header) rows
  | _ => []
  end.

(** ** The credential source *)

Definition LF : ascii := ascii_of_nat 10.
Definition CR : ascii := ascii_of_nat 13.

(** Text mode with universal newlines: ["\r\n"] and a lone ["\r"] are read
    as ["\n"]. *)
Fixpoint universal_newlines (s : string) : string :=
  match s with
  | EmptyString => EmptyString
  | String c rest =>
      if (c =? CR)%char then
        match rest with
        | String c' rest' =>
            if (c' =? LF)%char then String LF (universal_newlines rest')
            else String LF (universal_newlines rest)
        | EmptyString => String LF EmptyString
        end
      else String c (universal_newlines rest)
  end.

(** Iterating over a text file: the lines, each with its ["\n"], the last
    one without if the file does not end in a newline. *)
Fixpoint lines_from (line s : string) : list string :=
  match s with
  | EmptyString => if line =? "" then [] else [line]
  | String c rest =>
      if (c =? LF)%char then (line ++ String LF "")%string :: lines_from "" rest
      else lines_from (line ++ String c "") rest
  end.

Definition file_lines (content : string) : list string :=
  lines_from "" (universal_newlines content).

(** The characters that [str.strip] removes, among the code points below
    256: 9-13, 28-32, 133 and 160. *)
Definition is_space (c : ascii) : bool :=
  let n := nat_of_ascii c in
  (((9 <=? n) && (n <=? 13)) || ((28 <=? n) && (n <=? 32)) ||
   (n =? 133) || (n =? 160))%nat.

Fixpoint lstrip (s : string) : string :=
  match s with
  | EmptyString => EmptyString
  | String c rest => if is_space c then lstrip rest else s
  end.

Fixpoint rstrip (s : string) : string :=
  match s with
  | EmptyString => EmptyString
  | String c rest =>
      let rest' := rstrip rest in
      if is_space c && (rest' =? "") then EmptyString else String c rest'
  end.

Definition strip (s : string) : string := rstrip (lstrip s).

(** [load_credentials_from_file], on the content of the file:
    [[line.strip() for line in f if line.strip()]]. *)
Definition load_credentials_from_file (content : string) : list string :=
  map strip (filter (fun line => negb (strip line =? "")) (file_lines content)).

(** ** The command line *)

(** The parsed command line ([argparse.Namespace]) as [main] reads it.  An
    option that was not given is [None]. *)
Record Namespace : Type := mkNamespace {
  arg_url : string;
  arg_usernames : option (list string);
  arg_passwords : option (list string);
  arg_username_file : option string;
  arg_password_file : option string;
  arg_username_field : string;
  arg_password_field : string;
  arg_success_indicator : option string;
  arg_failure_indicator : option string;
  arg_parallel : bool;
  arg_max_workers : Z;
  arg_delay : Q;
  arg_timeout : Z;
  arg_output : option string
}.

(** The files that can be opened for reading, by path, with their text. *)
Definition Files : Type := string -> option string.

(** [open(file_path, 'r')] and reading the text; a missing file raises
    [FileNotFoundError], which stands among the other exceptions. *)
Definition read_text (files : Files) (file_path : string) : Exc string :=
  match files file_path with
  | Some content => Ok content
  | None =>
      Raise (OtherException
               ("[Errno 2] No such file or directory: '" ++ file_path ++ "'"))
  end.

(** The two blocks of [main] that collect the usernames and the passwords:
    the values given directly, then the entries of the file. *)
Definition collect_credentials (files : Files) (direct : option (list string))
    (file : option string) : Exc (list string) :=
  let listed := match direct with
                | Some (x :: xs) => x :: xs
                | _ => []
                end in
  match file with
  | Some file_path =>
      if negb (file_path =? "") then
        content <- read_text files file_path ;;
        Ok (listed ++ load_credentials_from_file content)
      else Ok listed
  | None => Ok listed
  end.

(** How [main] ends: [parser.error] (exit status 2, nothing was sent), an
    exception before the report, or the report printed and then the outcome
    of saving ([Ok None] when no output file was asked for). *)
Inductive Exit : Type :=
| UsageError (message : string)
| Traceback (e : Exn)
| Reported (results : list Dict.t) (report : option Report)
           (saved : Exc (option Written)).

Definition is_empty {A : Type} (l : list A) : bool :=
  match l with
  | [] => true
  | _ :: _ => false
  end.

(** [main], after [parser.parse_args()]. *)
Definition main (args : Namespace) (files : Files) (net : Net)
    (completion : list nat) : Exit :=
  match collect_credentials files (arg_usernames args) (arg_username_file args) with
  | Raise e => Traceback e
  | Ok usernames =>
  match collect_credentials files (arg_passwords args) (arg_password_file args) with
  | Raise e => Traceback e
  | Ok passwords =>
  if is_empty usernames || is_empty passwords then
    UsageError "You must provide usernames and passwords either directly or through files"
  else
    let tester := new_LoginTester (arg_url args)
                    (arg_username_field args) (arg_password_field args)
                    (arg_success_indicator args) (arg_failure_indicator args)
                    None (arg_timeout args) (arg_delay args)
                    (arg_max_workers args) in
    match run_tests tester net completion usernames passwords (arg_parallel args) with
    | Raise e => Traceback e
    | Ok results =>
    match generate_report results with
    | Raise e => Traceback e
    | Ok report =>
        Reported results report
          (match arg_output args with
           | Some output =>
               if negb (output =? "") then
                 w <- save_results results output ;; Ok (Some w)
               else Ok None
           | None => Ok None
           end)
    end
    end
  end
  end.

(** ** Notions used to state the properties *)

(** [needle] occurs in [hay] as a contiguous substring. *)
Definition occurs_in (needle hay : string) : Prop :=
  exists before after : string, hay = (before ++ needle ++ after)%string.

(** An indicator is configured when the classifier takes it into account:
    it is a string, and not the empty one (the truth test of
    [self.success_indicator and ...]). *)
Definition configured (indicator : option string) : Prop :=
  exists s : string, indicator = Some s /\ s <> "".

(** The request that [test_login] posts for a pair. *)
Definition login_request (self : LoginTester) (username password : string)
    : Request :=
  mkRequest (url self)
    (Dict.literal [(username_field self, VStr username);
                   (password_field self, VStr password)])
    (headers self) (timeout self).

(** The record that [test_login] returns when the transport call raised a
    [RequestException] with message [msg]. *)
Definition error_record (username password msg : string) : Dict.t :=
  [("username", VStr username); ("password", VStr password);
   ("success", VBool false); ("status_code", VNone);
   ("response_time", VNone); ("error", VStr msg)].

(** The record that [test_login] returns when the transport call completed. *)
Definition completed_record (self : LoginTester) (username password : string)
    (response : Response) (response_time : Z) : Dict.t :=
  [("username", VStr username); ("password", VStr password);
   ("success", VBool (_is_successful_login self response));
   ("status_code", VInt (status_code response));
   ("response_time", VFloat response_time); ("error", VNone);
   ("response_length", VInt (Z.of_nat (String.length (text response))))].

(** The record that [_run_parallel] builds in its [except Exception] clause. *)
Definition crash_record (username password msg : string) : Dict.t :=
  [("username", VStr username); ("password", VStr password);
   ("success", VBool false); ("error", VStr msg)].

(** The record that the concurrent scheduler appends for a finished future. *)
Definition future_record (f : Exc Dict.t * (string * string)) : Dict.t :=
  match f with
  | (Ok result, _) => result
  | (Raise e, (username, password)) => crash_record username password (str_exn e)
  end.

(** The credential pair that a record echoes. *)
Definition record_pair (r : Dict.t) : option (string * string) :=
  match Dict.get "username" r, Dict.get "password" r with
  | Some (VStr u), Some (VStr p) => Some (u, p)
  | _, _ => None
  end.

(** The order in which the attempts reach the result list. *)
Definition arrival_order (parallel : bool) (completion : list nat) (n : nat)
    : list nat :=
  if parallel then completion else seq 0 n.

Definition all_space (s : string) : Prop :=
  Forall (fun c => is_space c = true) (list_ascii_of_string s).

(** [s] neither starts nor ends with a character that [strip] removes. *)
Definition trimmed (s : string) : Prop :=
  (forall c rest, s = String c rest -> is_space c = false) /\
  (forall init c, s = (init ++ String c "")%string -> is_space c = false).

(** [e] is [line] without its leading and trailing whitespace. *)
Definition stripped (line e : string) : Prop :=
  trimmed e /\
  exists before after : string,
    line = (before ++ e ++ after)%string /\ all_space before /\ all_space after.

(** [r] is the record that the scheduler appends for the attempt with
    submission index [k]: what [test_login] returned for the [k]-th pair, or
    the record of the [except Exception] clause when it raised. *)
Definition recorded (self : LoginTester) (net : Net)
    (combos : list (string * string)) (k : nat) (r : Dict.t) : Prop :=
  exists u p : string,
    nth_error combos k = Some (u, p) /\
    r = future_record (test_login self net k u p, (u, p)).

(** No attempt of the run raises an exception other than a
    [RequestException]. *)
Definition no_unexpected_exception (self : LoginTester) (net : Net)
    (combos : list (string * string)) : Prop :=
  forall (k : nat) (u p : string),
    nth_error combos k = Some (u, p) ->
    exists r : Dict.t, test_login self net k u p = Ok r.

(** A delay that [time.sleep] accepts on every run: not negative and at
    most a million seconds, far inside the range of the conversion. *)
Definition ordinary_delay (seconds : Q) : Prop :=
  (0 <= seconds)%Q /\ (seconds <= inject_Z 1000000)%Q.

(** The scheduler of the chosen mode can run with this configuration: the
    pacing delay is an ordinary one (sequential mode), the worker count is
    positive (concurrent mode). *)
Definition runnable (self : LoginTester) (parallel : bool) : Prop :=
  if parallel then (0 < max_workers self)%Z else ordinary_delay (delay self).

Definition Outcome_eqb (a b : Outcome) : bool :=
  match a, b with
  | Success, Success | Failure, Failure | Error, Error => true
  | _, _ => false
  end.

(** The number of records with a given outcome. *)
Definition count_outcome (o : Outcome) (results : list Dict.t) : Z :=
  Z.of_nat (length (filter (fun r => Outcome_eqb (record_outcome r) o) results)).

(** The cell read back for field [key] of record [r]. *)
Definition cell (r : Dict.t) (key : string) : string :=
  match Dict.get key r with
  | Some v => csv_field v
  | None => ""
  end.

Definition is_blank (line : string) : bool :=
  forallb is_space (list_ascii_of_string line).

(** Rule 1 or rule 2 of the classifier applies: the indicator is configured
    and occurs in the body. *)
Definition fires (indicator : option string) (body : string) : Prop :=
  exists s : string, indicator = Some s /\ s <> "" /\ occurs_in s body.

(** The form data that [test_login] posts. *)
Definition form_data (self : LoginTester) (username password : string)
    : Dict.t :=
  if username_field self =? password_field self
  then [(password_field self, VStr password)]
  else [(username_field self, VStr username);
        (password_field self, VStr password)].


(** How often a pair, a username, a password occurs. *)
Definition count_pair (u p : string) (combos : list (string * string)) : nat :=
  length (filter (fun c => (fst c =? u) && (snd c =? p)) combos).

Definition count_string (x : string) (l : list string) : nat :=
  length (filter (fun y => y =? x) l).

(** The line that the report prints for a successful record. *)
Definition credential_line (r : Dict.t) : string :=
  match record_pair r with
  | Some (u, p) => u ++ ":" ++ p
  | None => ""
  end.

(** The keys of a record of a completed attempt, in order. *)
Definition completed_keys : list string :=
  ["username"; "password"; "success"; "status_code"; "response_time";
   "error"; "response_length"].

Definition has_char (c : ascii) (s : string) : Prop :=
  In c (list_ascii_of_string s).

(** A word list entry that the loader returns as it is: not empty, no
    whitespace at either end, no line break inside. *)
Definition clean_entry (e : string) : Prop :=
  e <> "" /\ trimmed e /\ ~ has_char LF e /\ ~ has_char CR e.

(** The text of a word list: every entry followed by a newline. *)
Fixpoint unlines (entries : list string) : string :=
  match entries with
  | [] => ""
  | e :: rest => e ++ String LF (unlines rest)
  end.

(** The tester that [main] builds from the command line. *)
Definition tester_of (args : Namespace) : LoginTester :=
  new_LoginTester (arg_url args)
    (arg_username_field args) (arg_password_field args)
    (arg_success_indicator args) (arg_failure_indicator args)
    None (arg_timeout args) (arg_delay args) (arg_max_workers args).

(** ** Sample configurations and runs *)

Module Sample.

Definition tester (success failure : option string) : LoginTester :=
  new_LoginTester "http://target.example/login" "username" "password"
    success failure None 10 (1 # 2) 5.

Definition plain : LoginTester := tester None None.

Definition welcome_denied : LoginTester :=
  tester (Some "Welcome") (Some "denied").

Definition ok_page : Response := mkResponse 200 "<html>hello</html>".

Definition both_page : Response :=
  mkResponse 403 "Welcome back; access denied elsewhere".

(** Every request is answered with status 200. *)
Definition net_ok : Net := fun _ _ => Completed ok_page 120.

(** The first request times out, the others are answered. *)
Definition net_first_times_out : Net :=
  fun i _ =>
    match i with
    | O => Raised (RequestException "Read timed out.")
    | _ => Completed ok_page 120
    end.

(** The first request raises an exception that is not a
    [RequestException]. *)
Definition net_first_crashes : Net :=
  fun i _ =>
    match i with
    | O => Raised (OtherException "internal fault")
    | _ => Completed ok_page 120
    end.

(** A tester built with [timeout=0], as [--timeout 0] does. *)
Definition zero_timeout : LoginTester :=
  new_LoginTester "http://target.example/login" "username" "password"
    None None None 0 (1 # 2) 5.

Definition bad_timeout : string :=
  "Attempted to set connect timeout to 0, but the timeout cannot be set to a value less than or equal to 0.".

(** [requests.post] rejects a timeout that is not positive with a
    [ValueError], before anything is sent; other requests are answered. *)
Definition net_checks_timeout : Net :=
  fun _ q =>
    if (req_timeout q <=? 0)%Z then Raised (ValueError bad_timeout)
    else Completed ok_page 120.

(** A record with a true [success] and no [username]. *)
Definition nameless : Dict.t := [("success", VBool true)].

(** The command line [--url ... --usernames alice bob --passwords pw1 pw2
    --output results.txt]. *)
Definition args_txt : Namespace :=
  mkNamespace "http://target.example/login"
    (Some ["alice"; "bob"]) (Some ["pw1"; "pw2"]) None None
    "username" "password" None None false 5 (1 # 2) 10 (Some "results.txt").

(** The command line [--url ... --username-file users.txt --passwords pw1]. *)
Definition args_file : Namespace :=
  mkNamespace "http://target.example/login"
    None (Some ["pw1"]) (Some "users.txt") None
    "username" "password" None None false 5 (1 # 2) 10 None.

(** [users.txt] holds two lines of whitespace. *)
Definition blank_files : Files :=
  fun path =>
    if path =? "users.txt"
    then Some ("   " ++ String LF (String (ascii_of_nat 9) (String LF "")))%string
    else None.

(** The second request raises an exception that is not a
    [RequestException]. *)
Definition net_second_crashes : Net :=
  fun i _ =>
    match i with
    | 1 => Raised (OtherException "internal fault")
    | _ => Completed ok_page 120
    end.

(** A tester built with [delay=-0.5], as [--delay -0.5] does. *)
Definition negative_delay : LoginTester :=
  new_LoginTester "http://target.example/login" "username" "password"
    None None None 10 (-1 # 2) 5.

(** The endpoint is down: every request is refused. *)
Definition net_down : Net :=
  fun _ _ => Raised (RequestException "Connection refused").

(** A tester built with [delay=1e10], as [--delay 1e10] does. *)
Definition huge_delay : LoginTester :=
  new_LoginTester "http://target.example/login" "username" "password"
    None None None 10 (inject_Z 10000000000) 5.

Definition users : list string := ["alice"; "bob"].
Definition passwords : list string := ["pw1"; "pw2"].

End Sample.

(** * Properties *)

(** ** Strings *)

Section Strings.

Lemma prefix_iff_app (n h : string) :
  prefix n h = true <-> exists after : string, h = (n ++ after)%string.
Proof.
  revert h. induction n as [|a n IH]; intros [|b h]; simpl.
  - split; [intros _; now exists ""%string | reflexivity].
  - split; [intros _; now exists (String b h) | reflexivity].
  - split; [discriminate | intros [x Hx]; discriminate].
  - destruct (ascii_dec a b) as [->|Hab].
    + split.
      * intros H. apply IH in H. destruct H as [x Hx]. exists x. congruence.
      * intros [x Hx]. apply IH. exists x. congruence.
    + split; [discriminate | intros [x Hx]; congruence].
Qed.

Lemma str_in_occurs (n h : string) : str_in n h = true <-> occurs_in n h.
Proof.
  unfold occurs_in. induction h as [|c h IH].
  - cbn [str_in]. rewrite orb_false_r, prefix_iff_app. split.
    + intros [x Hx]. now exists ""%string, x.
    + intros [[|b before] [after H]]; [now exists after | discriminate].
  - cbn [str_in]. rewrite orb_true_iff, IH, prefix_iff_app. split.
    + intros [[x Hx] | [before [after H]]].
      * now exists ""%string, x.
      * exists (String c before), after. simpl. now rewrite H.
    + intros [[|b before] [after H]].
      * left. now exists after.
      * right. exists before, after. simpl in H. congruence.
Qed.

Lemma append_empty_r (s : string) : (s ++ "")%string = s.
Proof. induction s; simpl; congruence. Qed.

Lemma append_assoc (a b c : string) :
  ((a ++ b) ++ c)%string = (a ++ b ++ c)%string.
Proof. induction a; simpl; congruence. Qed.

Lemma str_in_empty (h : string) : str_in "" h = true.
Proof. destruct h; reflexivity. Qed.

Lemma eqb_empty_false (s : string) : s <> "" -> (s =? "") = false.
Proof. intros H. now apply String.eqb_neq. Qed.

End Strings.

(** ** The classifier *)

Section Classifier.

Variable self : LoginTester.
Variable response : Response.

Lemma truthy_opt_configured (o : option string) :
  truthy_opt o = true <-> configured o.
Proof.
  unfold configured. destruct o as [s|]; simpl.
  - rewrite negb_true_iff, String.eqb_neq. split.
    + intros H. now exists s.
    + intros [s' [[= <-] H]]. exact H.
  - split; [discriminate | intros [s [[=] _]]].
Qed.

Lemma truthy_opt_not_configured (o : option string) :
  ~ configured o -> truthy_opt o = false.
Proof.
  intros H. destruct (truthy_opt o) eqn:E; [|reflexivity].
  exfalso. apply H. now apply truthy_opt_configured.
Qed.

(** Rule 1 alone decides as soon as it applies. *)
Lemma success_indicator_wins (s : string) :
  success_indicator self = Some s -> s <> "" ->
  occurs_in s (text response) ->
  _is_successful_login self response = true.
Proof.
  intros Hs Hne Hin. unfold _is_successful_login. rewrite Hs. simpl.
  apply str_in_occurs in Hin. now rewrite Hin, (eqb_empty_false s Hne).
Qed.

(** C2: when both indicators are configured and the body contains both of
    them, the classifier answers success, whatever the status code is. *)
Theorem classifier_tie_break (s f : string) :
  configured (success_indicator self) ->
  configured (failure_indicator self) ->
  success_indicator self = Some s ->
  failure_indicator self = Some f ->
  occurs_in s (text response) ->
  occurs_in f (text response) ->
  _is_successful_login self response = true.
Proof.
  intros [s' [Hs' Hne]] _ Hs _ Hin _.
  apply (success_indicator_wins s); trivial. congruence.
Qed.

(** C3: when neither indicator is configured, the verdict is success
    exactly when the status code is 200; the body plays no part. *)
Theorem classifier_fallback :
  ~ configured (success_indicator self) ->
  ~ configured (failure_indicator self) ->
  (_is_successful_login self response = true <-> status_code response = 200%Z) /\
  (status_code response <> 200%Z -> _is_successful_login self response = false).
Proof.
  intros Hs Hf. unfold _is_successful_login.
  rewrite (truthy_opt_not_configured _ Hs), (truthy_opt_not_configured _ Hf).
  simpl. destruct (Z.eqb_spec (status_code response) 200) as [E|E].
  - split; [tauto | contradiction].
  - split; [split; [discriminate | contradiction] | reflexivity].
Qed.

End Classifier.

(** C9: an empty success indicator never makes rule 1 fire, although the
    empty string occurs in every body, and an empty failure indicator never
    makes rule 2 fire: the verdict is the one obtained without that
    indicator. *)
Theorem empty_indicator_ignored (u uf pf : string) (s f : option string)
    (h : list (string * string)) (t : Z) (d : Q) (w : Z) (response : Response) :
  occurs_in "" (text response) /\
  _is_successful_login (mkLoginTester u uf pf (Some "") f h t d w) response =
  _is_successful_login (mkLoginTester u uf pf None f h t d w) response /\
  _is_successful_login (mkLoginTester u uf pf s (Some "") h t d w) response =
  _is_successful_login (mkLoginTester u uf pf s None h t d w) response.
Proof.
  split; [|split].
  - apply str_in_occurs, str_in_empty.
  - reflexivity.
  - unfold _is_successful_login. simpl.
    destruct (truthy_opt s && _); reflexivity.
Qed.

Lemma classifier_tie_break_witness :
  _is_successful_login Sample.welcome_denied Sample.both_page = true.
Proof.
  apply (classifier_tie_break Sample.welcome_denied Sample.both_page
           "Welcome" "denied").
  - exists "Welcome"%string. split; [reflexivity | discriminate].
  - exists "denied"%string. split; [reflexivity | discriminate].
  - reflexivity.
  - reflexivity.
  - exists ""%string, " back; access denied elsewhere"%string. reflexivity.
  - exists "Welcome back; access "%string, " elsewhere"%string. reflexivity.
Defined.

Lemma classifier_fallback_witness :
  (_is_successful_login Sample.plain Sample.ok_page = true <->
   status_code Sample.ok_page = 200%Z) /\
  (status_code Sample.ok_page <> 200%Z ->
   _is_successful_login Sample.plain Sample.ok_page = false).
Proof.
  apply (classifier_fallback Sample.plain Sample.ok_page).
  - intros [s [H _]]. discriminate H.
  - intros [s [H _]]. discriminate H.
Defined.

(** ** One attempt *)

Section Attempt.

Variable self : LoginTester.
Variable net : Net.

Lemma test_login_completed (k : nat) (u p : string) (response : Response) (t : Z) :
  net k (login_request self u p) = Completed response t ->
  test_login self net k u p = Ok (completed_record self u p response t).
Proof.
  intros H. unfold test_login. fold (login_request self u p). now rewrite H.
Qed.

Lemma test_login_request_exception (k : nat) (u p msg : string) :
  net k (login_request self u p) = Raised (RequestException msg) ->
  test_login self net k u p = Ok (error_record u p msg).
Proof.
  intros H. unfold test_login. fold (login_request self u p). now rewrite H.
Qed.

Lemma test_login_Ok_inv (k : nat) (u p : string) (r : Dict.t) :
  test_login self net k u p = Ok r ->
  (exists response t,
      net k (login_request self u p) = Completed response t /\
      r = completed_record self u p response t) \/
  (exists msg,
      net k (login_request self u p) = Raised (RequestException msg) /\
      r = error_record u p msg).
Proof.
  unfold test_login. fold (login_request self u p).
  destruct (net k (login_request self u p)) as [response t | e].
  - intros [= <-]. left. now exists response, t.
  - destruct e; try discriminate. intros [= <-]. right. now exists msg.
Qed.

Lemma test_login_Raise_inv (k : nat) (u p : string) (e : Exn) :
  test_login self net k u p = Raise e ->
  net k (login_request self u p) = Raised e /\
  forall msg, e <> RequestException msg.
Proof.
  unfold test_login. fold (login_request self u p).
  destruct (net k (login_request self u p)) as [response t | e'].
  - discriminate.
  - destruct e'; try discriminate; intros [= <-]; split; trivial; discriminate.
Qed.

(** What the concurrent scheduler records for an attempt, by the reply. *)
Lemma future_record_cases (k : nat) (u p : string) :
  let r := future_record (test_login self net k u p, (u, p)) in
  match net k (login_request self u p) with
  | Completed response t => r = completed_record self u p response t
  | Raised (RequestException msg) => r = error_record u p msg
  | Raised e => r = crash_record u p (str_exn e)
  end.
Proof.
  unfold test_login. fold (login_request self u p).
  destruct (net k (login_request self u p)) as [response t | e]; simpl.
  - reflexivity.
  - destruct e; reflexivity.
Qed.

(** The record of an attempt echoes its pair, and its fields agree with the
    outcome of the path that the attempt took. *)
Lemma future_record_fields (k : nat) (u p : string) :
  let r := future_record (test_login self net k u p, (u, p)) in
  let o := attempt_outcome self (net k (login_request self u p)) in
  record_pair r = Some (u, p) /\
  record_outcome r = o /\
  (field_set "error" r = true <-> o = Error) /\
  (field_set "status_code" r = true <-> (o = Success \/ o = Failure)).
Proof.
  pose proof (future_record_cases k u p) as H. cbv zeta in H |- *.
  destruct (net k (login_request self u p)) as [response t | e].
  - rewrite H. unfold attempt_outcome, record_outcome, success_flag,
      field_set, record_pair, completed_record. simpl.
    destruct (_is_successful_login self response); simpl;
      (repeat split; try discriminate; try tauto;
       intros [?|?]; discriminate).
  - assert (E : future_record (test_login self net k u p, (u, p)) =
                error_record u p (str_exn e) \/
                future_record (test_login self net k u p, (u, p)) =
                crash_record u p (str_exn e))
      by (destruct e; [left | right | right | right | right]; exact H).
    destruct E as [-> | ->]; simpl;
      (repeat split; try discriminate; try tauto;
       intros [?|?]; discriminate).
Qed.

End Attempt.

(** ** The schedulers *)

Lemma nth_error_combine_seq {A : Type} (l : list A) (i k : nat) :
  nth_error (combine (seq i (length l)) l) k =
  option_map (fun x => (i + k, x)) (nth_error l k).
Proof.
  revert i k. induction l as [|a l IH]; intros i [|k]; simpl; trivial.
  - now rewrite Nat.add_0_r.
  - rewrite IH. destruct (nth_error l k); simpl; trivial.
    now rewrite Nat.add_succ_r.
Qed.

Section Scheduler.

Variable self : LoginTester.
Variable net : Net.

Lemma nth_error_future_to_creds (combos : list (string * string)) (k : nat) :
  nth_error (future_to_creds self net combos) k =
  option_map (fun c => (test_login self net k (fst c) (snd c), c))
             (nth_error combos k).
Proof.
  unfold future_to_creds. rewrite nth_error_map, nth_error_combine_seq.
  destruct (nth_error combos k); reflexivity.
Qed.

Lemma collect_future_recorded (combos : list (string * string))
    (results : list Dict.t) (k : nat) :
  k < length combos ->
  exists r, collect_future (future_to_creds self net combos) results k =
            results ++ [r] /\ recorded self net combos k r.
Proof.
  intros Hk. unfold collect_future. rewrite nth_error_future_to_creds.
  destruct (nth_error combos k) as [[u p]|] eqn:E.
  - simpl. exists (future_record (test_login self net k u p, (u, p))). split.
    + destruct (test_login self net k u p); reflexivity.
    + now exists u, p.
  - apply nth_error_None in E. lia.
Qed.

Lemma fold_collect_recorded (combos : list (string * string))
    (completion : list nat) (acc : list Dict.t) :
  Forall (fun k => k < length combos) completion ->
  exists rs,
    fold_left (collect_future (future_to_creds self net combos)) completion acc =
    acc ++ rs /\
    Forall2 (recorded self net combos) completion rs.
Proof.
  revert acc. induction completion as [|k completion IH]; intros acc H.
  - exists []. simpl. now rewrite app_nil_r.
  - inversion H as [|? ? Hk Hrest]; subst.
    destruct (collect_future_recorded combos acc k Hk) as [r [E Hr]].
    destruct (IH (acc ++ [r]) Hrest) as [rs [E' Hrs]].
    exists (r :: rs). simpl. rewrite E, E', <- app_assoc. now split; [|constructor].
Qed.

Lemma completion_order_in_range (completion : list nat) (n : nat) :
  completion_order completion n -> Forall (fun k => k < n) completion.
Proof.
  intros H. apply Forall_forall. intros k Hk.
  apply (Permutation_in _ H), in_seq in Hk. lia.
Qed.

Lemma sleep_returns (seconds : Q) :
  ordinary_delay seconds -> sleep seconds = Ok tt.
Proof.
  intros [H0 H1]. unfold sleep.
  assert (Hmin : Qle_bool PyTime_MIN (seconds * inject_Z 1000000000) = true).
  { apply Qle_bool_iff. unfold PyTime_MIN, Qle, Qmult, inject_Z in *.
    simpl in *. nia. }
  assert (Hmax : Qle_bool (seconds * inject_Z 1000000000) PyTime_MAX = true).
  { apply Qle_bool_iff. unfold PyTime_MAX, Qle, Qmult, inject_Z in *.
    simpl in *. nia. }
  apply Qle_bool_iff in H0. now rewrite Hmin, Hmax, H0.
Qed.

(** [time.sleep] raises nothing but [ValueError] and [OverflowError]. *)
Lemma sleep_Raise_inv (seconds : Q) (e : Exn) :
  sleep seconds = Raise e ->
  ~ ordinary_delay seconds /\
  (e = ValueError "sleep length must be non-negative" \/
   e = OtherException "timestamp too large to convert to C _PyTime_t").
Proof.
  intros H. split.
  - intros Ho. rewrite (sleep_returns _ Ho) in H. discriminate.
  - unfold sleep in H.
    destruct (Qle_bool PyTime_MIN _ && Qle_bool _ PyTime_MAX).
    + destruct (Qle_bool 0 seconds); [discriminate|].
      left. congruence.
    + right. congruence.
Qed.

Lemma ThreadPoolExecutor_returns (w : Z) :
  ThreadPoolExecutor w = Ok tt <-> (0 < w)%Z.
Proof.
  unfold ThreadPoolExecutor. destruct (Z.leb_spec w 0); split;
    trivial; try discriminate; lia.
Qed.

(** The concurrent scheduler returns exactly when the worker count is
    positive. *)
Lemma _run_parallel_returns (completion : list nat)
    (combos : list (string * string)) :
  (0 < max_workers self)%Z ->
  _run_parallel self net completion combos =
  Ok (fold_left (collect_future (future_to_creds self net combos))
                completion []).
Proof.
  intros H. unfold _run_parallel.
  apply ThreadPoolExecutor_returns in H. now rewrite H.
Qed.

Lemma _run_parallel_inv (completion : list nat)
    (combos : list (string * string)) (results : list Dict.t) :
  _run_parallel self net completion combos = Ok results ->
  (0 < max_workers self)%Z /\
  results = fold_left (collect_future (future_to_creds self net combos))
                      completion [].
Proof.
  unfold _run_parallel.
  destruct (ThreadPoolExecutor (max_workers self)) as [[]|e] eqn:E; simpl;
    [|discriminate].
  intros [= <-]. split; [now apply ThreadPoolExecutor_returns | reflexivity].
Qed.

(** The concurrent scheduler appends one record per completed future, in
    completion order. *)
Lemma _run_parallel_recorded (completion : list nat)
    (combos : list (string * string)) (results : list Dict.t) :
  completion_order completion (length combos) ->
  _run_parallel self net completion combos = Ok results ->
  Forall2 (recorded self net combos) completion results.
Proof.
  intros H E. apply _run_parallel_inv in E. destruct E as [_ ->].
  destruct (fold_collect_recorded combos completion []
              (completion_order_in_range _ _ H)) as [rs [E Hrs]].
  now rewrite E.
Qed.

Lemma _run_sequential_loop_inv (todo : list (string * string)) (n i : nat)
    (acc res : list Dict.t) :
  _run_sequential_loop self net n i todo acc = Ok res ->
  exists rs,
    res = acc ++ rs /\
    Forall2 (fun k r => i <= k /\ exists u p,
                 nth_error todo (k - i) = Some (u, p) /\
                 test_login self net k u p = Ok r)
            (seq i (length todo)) rs.
Proof.
  revert i acc. induction todo as [|[u p] todo IH]; intros i acc; simpl.
  - intros [= <-]. exists []. now rewrite app_nil_r.
  - destruct (test_login self net i u p) as [r|e] eqn:E; simpl; [|discriminate].
    destruct (if (S i <? n)%nat then sleep (delay self) else Ok tt) as [[]|e];
      simpl; [|discriminate].
    intros H. destruct (IH _ _ H) as [rs [-> Hrs]].
    exists (r :: rs). rewrite <- app_assoc. split; [reflexivity|].
    constructor.
    + split; [lia|]. exists u, p. now rewrite Nat.sub_diag.
    + eapply Forall2_impl; [|exact Hrs].
      intros k r' [Hk [u' [p' [Hn Ht]]]]. split; [lia|]. exists u', p'.
      split; [|exact Ht].
      replace (k - i) with (S (k - S i)) by lia. exact Hn.
Qed.

Lemma Forall2_in_left {A B : Type} (P : A -> B -> Prop) (l : list A)
    (l' : list B) (a : A) :
  Forall2 P l l' -> In a l -> exists b, In b l' /\ P a b.
Proof.
  induction 1 as [|x y xs ys Hxy _ IH]; intros Hin; [destruct Hin|].
  destruct Hin as [<- | Hin].
  - exists y. split; [now left | exact Hxy].
  - destruct (IH Hin) as [b [Hb HP]]. exists b. split; [now right | exact HP].
Qed.

(** A sequential run that returns has appended one record per pair, in
    enumeration order, and every attempt returned normally. *)
Lemma _run_sequential_recorded (combos : list (string * string))
    (results : list Dict.t) :
  _run_sequential self net combos = Ok results ->
  Forall2 (recorded self net combos) (seq 0 (length combos)) results /\
  no_unexpected_exception self net combos.
Proof.
  intros H. destruct (_run_sequential_loop_inv _ _ _ _ _ H) as [rs [-> Hrs]].
  simpl. split.
  - eapply Forall2_impl; [|exact Hrs].
    intros k r [_ [u [p [Hn Ht]]]]. rewrite Nat.sub_0_r in Hn.
    exists u, p. now rewrite Ht.
  - intros k u p Hn.
    assert (Hk : k < length combos) by (apply nth_error_Some; congruence).
    assert (Hin : In k (seq 0 (length combos))) by (apply in_seq; lia).
    destruct (Forall2_in_left _ _ _ _ Hrs Hin)
      as [r [_ [_ [u' [p' [Hn' Ht]]]]]].
    rewrite Nat.sub_0_r in Hn'. exists r. congruence.
Qed.

Lemma _run_sequential_loop_returns (todo : list (string * string)) (n i : nat)
    (acc : list Dict.t) :
  ordinary_delay (delay self) ->
  (forall k u p, nth_error todo k = Some (u, p) ->
                 exists r, test_login self net (i + k) u p = Ok r) ->
  exists res, _run_sequential_loop self net n i todo acc = Ok res.
Proof.
  intros Hd. revert i acc.
  induction todo as [|[u p] todo IH]; intros i acc H; simpl.
  - now exists acc.
  - destruct (H 0 u p eq_refl) as [r Hr]. rewrite Nat.add_0_r in Hr.
    rewrite Hr. simpl. rewrite (sleep_returns _ Hd).
    destruct (S i <? n)%nat; simpl; apply IH; intros k u' p' Hn;
      rewrite Nat.add_succ_l, <- Nat.add_succ_r; now apply H.
Qed.

(** A sequential run returns as soon as the delay is an ordinary one and
    no attempt raises an exception other than a [RequestException]. *)
Lemma _run_sequential_returns (combos : list (string * string)) :
  ordinary_delay (delay self) ->
  no_unexpected_exception self net combos ->
  exists results, _run_sequential self net combos = Ok results.
Proof.
  intros Hd H. now apply _run_sequential_loop_returns.
Qed.

(** An exception that ends the sequential loop was raised by an attempt or
    by [time.sleep]. *)
Lemma _run_sequential_loop_Raise_inv (todo : list (string * string))
    (n i : nat) (acc : list Dict.t) (e : Exn) :
  _run_sequential_loop self net n i todo acc = Raise e ->
  (exists k u p, nth_error todo k = Some (u, p) /\
                 test_login self net (i + k) u p = Raise e) \/
  sleep (delay self) = Raise e.
Proof.
  revert i acc. induction todo as [|[u p] todo IH]; intros i acc; simpl.
  - discriminate.
  - destruct (test_login self net i u p) as [r|e'] eqn:E; simpl.
    + destruct (S i <? n)%nat.
      * destruct (sleep (delay self)) as [[]|e'] eqn:Es; simpl.
        -- intros H. destruct (IH _ _ H) as [[k [u' [p' [Hn Ht]]]] | Hs].
           ++ left. exists (S k), u', p'. split; [exact Hn|].
              now rewrite Nat.add_succ_r.
           ++ now right.
        -- intros [= ->]. now right.
      * simpl. intros H. destruct (IH _ _ H) as [[k [u' [p' [Hn Ht]]]] | Hs].
        -- left. exists (S k), u', p'. split; [exact Hn|].
           now rewrite Nat.add_succ_r.
        -- now right.
    + intros [= ->]. left. exists 0, u, p. split; [reflexivity|].
      now rewrite Nat.add_0_r.
Qed.

(** [run_tests] never raises a [RequestException], in either mode. *)
Lemma run_tests_no_RequestException (completion : list nat)
    (usernames passwords : list string) (parallel : bool) (msg : string) :
  run_tests self net completion usernames passwords parallel <>
  Raise (RequestException msg).
Proof.
  unfold run_tests. destruct parallel.
  - unfold _run_parallel, ThreadPoolExecutor.
    destruct (max_workers self <=? 0)%Z; discriminate.
  - unfold _run_sequential. intros H.
    apply _run_sequential_loop_Raise_inv in H.
    destruct H as [[k [u [p [_ Ht]]]] | Hs].
    + apply test_login_Raise_inv in Ht. destruct Ht as [_ Hne].
      now apply (Hne msg).
    + apply sleep_Raise_inv in Hs. destruct Hs as [_ [Hs | Hs]]; discriminate.
Qed.

(** Both modes: a run returns when the scheduler can run and, in sequential
    mode, no attempt raises an exception other than a [RequestException]. *)
Lemma run_tests_returns (completion : list nat)
    (usernames passwords : list string) (parallel : bool) :
  runnable self parallel ->
  (parallel = false ->
   no_unexpected_exception self net (test_combinations usernames passwords)) ->
  exists results,
    run_tests self net completion usernames passwords parallel = Ok results.
Proof.
  unfold run_tests, runnable. destruct parallel; intros Hr Hno.
  - eexists. now apply _run_parallel_returns.
  - apply _run_sequential_returns; auto.
Qed.

(** Both modes: the records of a run that returns, in arrival order. *)
Lemma run_tests_recorded (completion : list nat) (usernames passwords : list string)
    (parallel : bool) (results : list Dict.t) :
  let combos := test_combinations usernames passwords in
  (parallel = true -> completion_order completion (length combos)) ->
  run_tests self net completion usernames passwords parallel = Ok results ->
  Forall2 (recorded self net combos)
          (arrival_order parallel completion (length combos)) results.
Proof.
  intros combos Hc. unfold run_tests. fold combos. destruct parallel; simpl.
  - intros E. now apply _run_parallel_recorded; [apply Hc|].
  - intros H. now apply _run_sequential_recorded.
Qed.

End Scheduler.

(** ** The Cartesian product *)

Lemma test_combinations_length (usernames passwords : list string) :
  length (test_combinations usernames passwords) =
  length usernames * length passwords.
Proof.
  unfold test_combinations. induction usernames as [|u us IH]; simpl; trivial.
  now rewrite length_app, length_map, IH.
Qed.

(** Username-major order: position [k] holds the username of index
    [k / n] and the password of index [k mod n], [n] being the number of
    passwords. *)
Lemma test_combinations_nth (usernames passwords : list string) (k : nat) :
  k < length usernames * length passwords ->
  nth_error (test_combinations usernames passwords) k =
  Some (nth (k / length passwords) usernames "",
        nth (k mod length passwords) passwords "").
Proof.
  unfold test_combinations. revert k.
  induction usernames as [|u us IH]; intros k Hk; simpl in *; [lia|].
  set (n := length passwords) in *.
  assert (Hn : n <> 0) by (intros E; rewrite E in Hk; lia).
  destruct (Nat.lt_ge_cases k n) as [Hlt | Hge].
  - rewrite nth_error_app1 by now rewrite length_map.
    rewrite nth_error_map, Nat.div_small, Nat.mod_small by trivial.
    rewrite (nth_error_nth' passwords "") by trivial. reflexivity.
  - rewrite nth_error_app2 by now rewrite length_map.
    rewrite length_map. fold n. rewrite IH by lia.
    replace k with ((k - n) + 1 * n) at 3 4 by lia.
    rewrite Nat.div_add, Nat.Div0.mod_add by trivial.
    now rewrite Nat.add_1_r.
Qed.

Lemma map_nth_error_seq {A : Type} (l : list A) :
  map (nth_error l) (seq 0 (length l)) = map Some l.
Proof.
  induction l as [|a l IH]; simpl; trivial.
  now rewrite <- seq_shift, map_map, <- IH.
Qed.

Lemma Forall2_seq_nth {A : Type} (P : nat -> A -> Prop) (i n : nat)
    (l : list A) (k : nat) (x : A) :
  Forall2 P (seq i n) l -> nth_error l k = Some x -> P (i + k) x.
Proof.
  revert i l k. induction n as [|n IH]; intros i l k H Hk;
    inversion H as [|? ? ? l' Hx Hrest]; subst.
  - destruct k; discriminate.
  - destruct k as [|k]; simpl in Hk.
    + injection Hk as <-. now rewrite Nat.add_0_r.
    + rewrite Nat.add_succ_r, <- Nat.add_succ_l. now apply (IH (S i) l').
Qed.

(** ** Runs *)

Section Runs.

Variable self : LoginTester.
Variable net : Net.

Lemma recorded_pairs (combos : list (string * string)) (order : list nat)
    (results : list Dict.t) :
  Forall2 (recorded self net combos) order results ->
  map record_pair results = map (nth_error combos) order.
Proof.
  induction 1 as [|k r order results [u [p [Hn ->]]] _ IH]; simpl; trivial.
  rewrite IH, Hn. f_equal. apply (future_record_fields self net k u p).
Qed.

(** X4: concurrent mode returns one record per pair whenever the worker
    count is positive: the pairs of the records are a rearrangement of the
    Cartesian product, also when attempts raise. *)
Lemma run_tests_parallel_pairs (completion : list nat)
    (usernames passwords : list string) :
  let combos := test_combinations usernames passwords in
  (0 < max_workers self)%Z ->
  completion_order completion (length combos) ->
  exists results,
    run_tests self net completion usernames passwords true = Ok results /\
    length results = length usernames * length passwords /\
    Permutation (map record_pair results) (map Some combos).
Proof.
  intros combos Hw Hc.
  destruct (run_tests_returns self net completion usernames passwords true Hw)
    as [results E]; [discriminate|].
  exists results. split; [exact E|].
  pose proof (_run_parallel_recorded self net completion combos results Hc E)
    as H.
  split.
  - rewrite <- (Forall2_length H), (Permutation_length Hc), length_seq.
    apply test_combinations_length.
  - rewrite (recorded_pairs _ _ _ H), <- map_nth_error_seq.
    now apply Permutation_map.
Qed.

(** The pairs of a sequential run that returns are the Cartesian product,
    in enumeration order. *)
Lemma run_tests_sequential_pairs (completion : list nat)
    (usernames passwords : list string) (results : list Dict.t) :
  run_tests self net completion usernames passwords false = Ok results ->
  length results = length usernames * length passwords /\
  map record_pair results = map Some (test_combinations usernames passwords).
Proof.
  intros E.
  destruct (_run_sequential_recorded self net _ results E) as [H _].
  split.
  - rewrite <- (Forall2_length H), length_seq. apply test_combinations_length.
  - rewrite (recorded_pairs _ _ _ H). apply map_nth_error_seq.
Qed.

(** C4: in sequential mode the returned records follow the username-major
    enumeration.  Counting from 0, the record at position [k] carries the
    username of index [k / n] and the password of index [k mod n], where
    [n] is the number of passwords; with positions and indices counted
    from 1 this is username [ceil(i / n)] and password [((i - 1) mod n) + 1]
    for [i = k + 1].  The run does return when the delay is an ordinary one
    (between 0 and a million seconds) and no attempt raises an exception
    other than a [RequestException]. *)
Theorem sequential_order (completion : list nat)
    (usernames passwords : list string) :
  (ordinary_delay (delay self) ->
   no_unexpected_exception self net (test_combinations usernames passwords) ->
   exists results,
     run_tests self net completion usernames passwords false = Ok results) /\
  (forall results,
    run_tests self net completion usernames passwords false = Ok results ->
    length results = length usernames * length passwords /\
    map record_pair results = map Some (test_combinations usernames passwords) /\
    forall k, k < length usernames * length passwords ->
      exists r,
        nth_error results k = Some r /\
        Dict.get "username" r =
          Some (VStr (nth (k / length passwords) usernames "")) /\
        Dict.get "password" r =
          Some (VStr (nth (k mod length passwords) passwords ""))).
Proof.
  split.
  { intros Hd Hc.
    now apply (run_tests_returns self net completion usernames passwords false). }
  intros results E.
  destruct (run_tests_sequential_pairs completion usernames passwords results E)
    as [Hlen Hpairs].
  destruct (_run_sequential_recorded self net _ results E) as [H _].
  split; [exact Hlen|]. split; [exact Hpairs|].
  intros k Hk.
  destruct (nth_error results k) as [r|] eqn:Er;
    [|apply nth_error_None in Er; lia].
  exists r. split; [reflexivity|].
  assert (Hrec : recorded self net (test_combinations usernames passwords) k r).
  { exact (Forall2_seq_nth _ 0 _ results k r H Er). }
  destruct Hrec as [u [p [Hn ->]]].
  rewrite test_combinations_nth in Hn by trivial. injection Hn as <- <-.
  pose proof (future_record_fields self net k
                (nth (k / length passwords) usernames "")
                (nth (k mod length passwords) passwords "")) as [Hp _].
  unfold record_pair in Hp.
  destruct (Dict.get "username" _) as [[| | | |uu]|]; try discriminate;
    destruct (Dict.get "password" _) as [[| | | |pp]|]; try discriminate.
  now injection Hp as -> ->.
Qed.

(** C5: every record of a run comes from one attempt, and its fields agree
    with the path that the attempt took: [error] is set exactly when the
    outcome is [Error], and [status_code] is set exactly when the transport
    call completed, that is when the outcome is [Success] or [Failure].
    The records of the normal path, of the [RequestException] path and of
    the [except Exception] clause of the concurrent scheduler are all
    covered. *)
Theorem record_fields_match_outcome (completion : list nat)
    (usernames passwords : list string) (parallel : bool)
    (results : list Dict.t) :
  let combos := test_combinations usernames passwords in
  (parallel = true -> completion_order completion (length combos)) ->
  run_tests self net completion usernames passwords parallel = Ok results ->
  Forall (fun r =>
            record_invariant r /\
            exists k u p,
              nth_error combos k = Some (u, p) /\
              let o := attempt_outcome self (net k (login_request self u p)) in
              record_outcome r = o /\
              (field_set "error" r = true <-> o = Error) /\
              (field_set "status_code" r = true <->
                 (o = Success \/ o = Failure)))
         results.
Proof.
  intros combos Hc E.
  pose proof (run_tests_recorded self net completion usernames passwords
                parallel results Hc E) as H.
  fold combos in H. clear E Hc.
  induction H as [|k r order results [u [p [Hn ->]]] _ IH]; constructor; trivial.
  destruct (future_record_fields self net k u p) as [_ [Ho [He Hs]]].
  split.
  - unfold record_invariant. rewrite Ho. now split.
  - exists k, u, p. cbv zeta. now repeat split; try apply He; try apply Hs.
Qed.

(** C7: when the transport call of a pair raises a [RequestException],
    the attempt for that pair returns a record with outcome [Error], the
    message of the exception as error detail and no status code.  The
    exception is recovered inside the attempt: [run_tests] never raises a
    [RequestException], and the run returns in both modes unless the
    scheduler cannot run with the configuration or, in sequential mode,
    another attempt raises an exception of its own.  In every run that
    returns, the pair has its error record and each other pair has the
    record of its own attempt, whatever happened to the rest: the ordinary
    record with a status code and no error when its call completed. *)
Theorem transport_error_is_local (completion : list nat)
    (usernames passwords : list string) (parallel : bool)
    (j : nat) (u p msg : string) :
  let combos := test_combinations usernames passwords in
  nth_error combos j = Some (u, p) ->
  net j (login_request self u p) = Raised (RequestException msg) ->
  (test_login self net j u p = Ok (error_record u p msg) /\
   record_outcome (error_record u p msg) = Error /\
   Dict.get "error" (error_record u p msg) = Some (VStr msg) /\
   field_set "status_code" (error_record u p msg) = false) /\
  (forall m,
     run_tests self net completion usernames passwords parallel <>
     Raise (RequestException m)) /\
  ((exists results,
      run_tests self net completion usernames passwords parallel = Ok results) \/
   ~ runnable self parallel \/
   (parallel = false /\
    exists i u' p' e,
      i <> j /\ nth_error combos i = Some (u', p') /\
      test_login self net i u' p' = Raise e /\
      run_tests self net completion usernames passwords parallel = Raise e)) /\
  (forall results,
     (parallel = true -> completion_order completion (length combos)) ->
     run_tests self net completion usernames passwords parallel = Ok results ->
     Forall2 (fun i r =>
                (i = j /\ r = error_record u p msg) \/
                (i <> j /\
                 exists u' p',
                   nth_error combos i = Some (u', p') /\
                   r = future_record (test_login self net i u' p', (u', p')) /\
                   forall response t,
                     net i (login_request self u' p') = Completed response t ->
                     r = completed_record self u' p' response t /\
                     field_set "status_code" r = true /\
                     field_set "error" r = false))
             (arrival_order parallel completion (length combos)) results).
Proof.
  intros combos Hj Hnet.
  pose proof (test_login_request_exception self net j u p msg Hnet) as Hlogin.
  split; [now repeat split|].
  split; [intros m; apply run_tests_no_RequestException|].
  split.
  - destruct (run_tests self net completion usernames passwords parallel)
      as [results|e] eqn:E; [left; now exists results|].
    right. unfold run_tests in E. fold combos in E. destruct parallel.
    + left. unfold runnable. intros Hw.
      rewrite (_run_parallel_returns self net completion combos Hw) in E.
      discriminate.
    + unfold _run_sequential in E.
      destruct (_run_sequential_loop_Raise_inv self net _ _ _ _ _ E)
        as [[k [u' [p' [Hn Ht]]]] | Hs].
      * right. split; [reflexivity|]. exists k, u', p', e.
        simpl in Ht. repeat split; trivial.
        intros ->. rewrite Hj in Hn. injection Hn as <- <-. congruence.
      * left. unfold runnable. now apply (sleep_Raise_inv _ e).
  - intros results Hc E.
    pose proof (run_tests_recorded self net completion usernames passwords
                  parallel results Hc E) as H.
    fold combos in H. eapply Forall2_impl; [|exact H].
    intros i r [u' [p' [Hi ->]]]. destruct (Nat.eq_dec i j) as [->|Hij].
    + left. split; trivial. rewrite Hj in Hi. injection Hi as <- <-.
      now rewrite Hlogin.
    + right. split; trivial. exists u', p'.
      split; [exact Hi|]. split; [reflexivity|].
      intros response t Hr.
      rewrite (test_login_completed self net i u' p' response t Hr).
      now repeat split.
Qed.

End Runs.

(** C1: a run is expected to return one record per credential pair in
    both modes, also when an attempt raises an unexpected exception.  With a
    tester whose timeout is 0 every call of [requests.post] raises
    [ValueError], which is not a [RequestException]: the sequential run of
    the single pair (alice, pw1) returns no record, because the exception
    leaves [run_tests], while the concurrent run of the same pair returns
    its one record. *)
Theorem run_tests_sequential_aborts :
  run_tests Sample.zero_timeout Sample.net_checks_timeout [] ["alice"] ["pw1"]
    false = Raise (ValueError Sample.bad_timeout) /\
  run_tests Sample.zero_timeout Sample.net_checks_timeout [0] ["alice"] ["pw1"]
    true = Ok [crash_record "alice" "pw1" Sample.bad_timeout].
Proof. split; reflexivity. Qed.

Lemma sequential_order_witness :
  exists results,
    run_tests Sample.plain Sample.net_ok [] Sample.users Sample.passwords false =
      Ok results /\
    map record_pair results =
      [Some ("alice", "pw1"); Some ("alice", "pw2");
       Some ("bob", "pw1"); Some ("bob", "pw2")].
Proof.
  destruct (sequential_order Sample.plain Sample.net_ok [] Sample.users
              Sample.passwords) as [Hret Hord].
  destruct Hret as [results E].
  - split; discriminate.
  - intros k u p _. eexists. reflexivity.
  - exists results. split; [exact E|].
    destruct (Hord results E) as [_ [Hpairs _]]. exact Hpairs.
Defined.

Lemma record_fields_match_outcome_witness :
  exists results,
    run_tests Sample.plain Sample.net_first_crashes [1; 0; 2; 3]
      Sample.users Sample.passwords true = Ok results /\
    Forall record_invariant results.
Proof.
  eexists. split; [reflexivity|].
  eapply Forall_impl;
    [|apply (record_fields_match_outcome Sample.plain Sample.net_first_crashes
               [1; 0; 2; 3] Sample.users Sample.passwords true);
      [intros _; apply perm_swap | reflexivity]].
  intros r [H _]. exact H.
Defined.

Lemma transport_error_is_local_witness :
  test_login Sample.plain Sample.net_down 1 "alice" "pw2" =
    Ok (error_record "alice" "pw2" "Connection refused") /\
  exists results,
    run_tests Sample.plain Sample.net_down [] Sample.users Sample.passwords
      false = Ok results /\
    nth_error results 1 = Some (error_record "alice" "pw2" "Connection refused") /\
    length results = 4.
Proof.
  destruct (transport_error_is_local Sample.plain Sample.net_down []
              Sample.users Sample.passwords false
              1 "alice" "pw2" "Connection refused")
    as [[H1 _] [_ [_ H]]].
  - reflexivity.
  - reflexivity.
  - split; [exact H1|]. eexists. split; [reflexivity|].
    split; [reflexivity|].
    now rewrite <- (Forall2_length (H _ (fun E => False_ind _ (Bool.diff_false_true E))
                                        eq_refl)).
Defined.

(** ** The report *)

Lemma mapM_returns {A B : Type} (f : A -> Exc B) (l : list A) :
  Forall (fun a => exists b, f a = Ok b) l -> exists bs, mapM f l = Ok bs.
Proof.
  induction 1 as [|a l [b Hb] _ [bs Hbs]]; simpl.
  - now exists [].
  - rewrite Hb. simpl. rewrite Hbs. simpl. now exists (b :: bs).
Qed.

Lemma mapM_raises {A B : Type} (f : A -> Exc B) (l : list A) (e : Exn) :
  mapM f l = Raise e -> exists a, In a l /\ f a = Raise e.
Proof.
  induction l as [|a l IH]; simpl; [discriminate|].
  destruct (f a) as [b|e'] eqn:E; simpl.
  - destruct (mapM f l) as [bs|e'']; simpl; [discriminate|].
    intros [= ->]. destruct (IH eq_refl) as [a' [Hin H]].
    exists a'. split; [now right | exact H].
  - intros [= ->]. exists a. split; [now left | exact E].
Qed.

Lemma record_outcome_Success (r : Dict.t) :
  Outcome_eqb (record_outcome r) Success = success_flag r.
Proof.
  unfold record_outcome. destruct (success_flag r); trivial.
  now destruct (field_set "error" r).
Qed.

Lemma count_outcome_total (results : list Dict.t) :
  (count_outcome Success results + count_outcome Failure results +
   count_outcome Error results = Z.of_nat (length results))%Z.
Proof.
  unfold count_outcome. induction results as [|r results IH]; [reflexivity|].
  cbn [filter]. destruct (record_outcome r); cbn [Outcome_eqb length]; lia.
Qed.

(** C6: the report counts as successful exactly the records whose outcome
    is [Success]; failures and errors together make up [failed], so that
    [successful + failed = total]; the rate is [successful / total] (shown
    in percent), a division that is only carried out for a positive total;
    on an empty list the method returns before it, and in no case does it
    raise [ZeroDivisionError]. *)
Theorem generate_report_summary (results : list Dict.t) :
  generate_report results <> Raise ZeroDivisionError /\
  (results = [] -> generate_report results = Ok None) /\
  (results <> [] ->
   Forall (fun r => exists pair, record_pair r = Some pair) results ->
   exists rep,
     generate_report results = Ok (Some rep) /\
     (0 < total rep)%Z /\
     total rep = Z.of_nat (length results) /\
     successful rep = count_outcome Success results /\
     failed rep = (count_outcome Failure results + count_outcome Error results)%Z /\
     (successful rep + failed rep = total rep)%Z /\
     truediv (successful rep) (total rep) =
       Ok (inject_Z (successful rep) / inject_Z (total rep))%Q /\
     success_rate_percent rep =
       (inject_Z (successful rep) / inject_Z (total rep) * 100)%Q).
Proof.
  destruct results as [|r0 rest].
  { split; [discriminate|]. split; [reflexivity | congruence]. }
  set (results := r0 :: rest).
  assert (Htot : (Z.of_nat (length results) =? 0)%Z = false)
    by (apply Z.eqb_neq; unfold results; cbn [length]; lia).
  assert (Hdiv : forall a, truediv a (Z.of_nat (length results)) =
                           Ok (inject_Z a / inject_Z (Z.of_nat (length results)))%Q)
    by (intros a; unfold truediv; now rewrite Htot).
  split; [|split; [discriminate|]].
  - unfold generate_report. fold results. rewrite Hdiv. simpl bind.
    destruct (_ >? 0)%Z; [|discriminate].
    destruct (mapM _ _) as [lines|e] eqn:E; [discriminate|]. simpl.
    intros [= ->]. apply mapM_raises in E. destruct E as [r [_ E]].
    unfold Dict.item in E.
    destruct (Dict.get "username" r); simpl in E; [|discriminate E].
    destruct (Dict.get "password" r); simpl in E; discriminate E.
  - intros _ Hpairs.
    assert (Hlines : exists lines,
               mapM (fun result =>
                       u <- Dict.item "username" result ;;
                       p <- Dict.item "password" result ;;
                       Ok (str u ++ ":" ++ str p)%string)
                    (filter success_flag results) = Ok lines).
    { apply mapM_returns, Forall_forall. intros r Hr.
      apply filter_In in Hr. destruct Hr as [Hr _].
      rewrite Forall_forall in Hpairs. destruct (Hpairs r Hr) as [pair Hp].
      unfold record_pair in Hp. unfold Dict.item.
      destruct (Dict.get "username" r) as [u|]; [|discriminate].
      destruct (Dict.get "password" r) as [p|]; [|now destruct u].
      simpl. eexists. reflexivity. }
    destruct Hlines as [lines Hlines].
    pose proof (count_outcome_total results) as Hsum.
    assert (Hsucc : Z.of_nat (length (filter success_flag results)) =
                    count_outcome Success results).
    { unfold count_outcome. do 2 f_equal. apply filter_ext.
      intros r. symmetry. apply record_outcome_Success. }
    exists (mkReport (Z.of_nat (length results))
                     (Z.of_nat (length (filter success_flag results)))
                     (Z.of_nat (length results) -
                      Z.of_nat (length (filter success_flag results)))
                     (inject_Z (Z.of_nat (length (filter success_flag results))) /
                      inject_Z (Z.of_nat (length results)) * 100)%Q
                     (if (Z.of_nat (length (filter success_flag results)) >? 0)%Z
                      then lines else [])).
    cbn [total successful failed success_rate_percent].
    split.
    { unfold generate_report. fold results. rewrite Hdiv.
      unfold bind at 1. cbv beta iota.
      destruct (_ >? 0)%Z; [rewrite Hlines|]; reflexivity. }
    rewrite Hdiv. repeat split; lia.
Qed.

Lemma generate_report_summary_witness :
  exists rep,
    generate_report [error_record "alice" "pw1" "Read timed out.";
                     completed_record Sample.plain "alice" "pw2" Sample.ok_page 120] =
      Ok (Some rep) /\
    total rep = 2%Z /\ successful rep = 1%Z /\ failed rep = 1%Z.
Proof.
  destruct (generate_report_summary
              [error_record "alice" "pw1" "Read timed out.";
               completed_record Sample.plain "alice" "pw2" Sample.ok_page 120])
    as [_ [_ H]].
  destruct H as [rep [E [_ [Ht [Hs [Hf _]]]]]].
  - discriminate.
  - repeat constructor; eexists; reflexivity.
  - exists rep. split; [exact E|]. rewrite Ht, Hs, Hf. now vm_compute.
Defined.

(** ** The persistence sink *)

(** C8: the result list of the sequential run in which the first of two
    attempts times out and the second completes cannot be saved as CSV:
    the header is taken from the first record, the second one has the
    additional key [response_length], and the writer raises [ValueError]. *)
Theorem save_results_csv_rejects_run :
  run_tests Sample.plain Sample.net_first_times_out [] ["alice"] Sample.passwords
    false =
    Ok [error_record "alice" "pw1" "Read timed out.";
        completed_record Sample.plain "alice" "pw2" Sample.ok_page 120] /\
  save_results [error_record "alice" "pw1" "Read timed out.";
                completed_record Sample.plain "alice" "pw2" Sample.ok_page 120]
               "results.csv" =
    Raise (ValueError "dict contains fields not in fieldnames: 'response_length'").
Proof. split; reflexivity. Qed.

Lemma mem_In (k : string) (ks : list string) : Dict.mem k ks = true <-> In k ks.
Proof.
  unfold Dict.mem. rewrite existsb_exists. split.
  - intros [k' [Hin E]]. apply String.eqb_eq in E. now subst.
  - intros H. exists k. split; [exact H | apply String.eqb_refl].
Qed.

Lemma _dict_to_list_cells (fieldnames : list string) (rowdict : Dict.t) :
  (forall k, In k (Dict.keys rowdict) -> In k fieldnames) ->
  _dict_to_list fieldnames rowdict = Ok (map (cell rowdict) fieldnames).
Proof.
  intros H. unfold _dict_to_list.
  replace (filter _ (Dict.keys rowdict)) with (@nil string); [reflexivity|].
  symmetry. induction (Dict.keys rowdict) as [|k ks IH]; simpl; trivial.
  assert (E : Dict.mem k fieldnames = true) by (apply mem_In, H; now left).
  rewrite E. simpl. apply IH. intros k' Hk'. apply H. now right.
Qed.

Lemma combine_map_self {A B : Type} (f : A -> B) (l : list A) :
  combine l (map f l) = map (fun a => (a, f a)) l.
Proof. induction l as [|a l IH]; simpl; congruence. Qed.

(** When no record has a key outside those of the first one, the CSV
    document is written and reading it back yields, record by record and in
    the order of the list, the cell of every header field. *)
Lemma save_results_csv_read_back (first : Dict.t) (rest : list Dict.t)
    (output_file : string) :
  lower (last_piece "" output_file) = "csv" ->
  Forall (fun r => forall k, In k (Dict.keys r) -> In k (Dict.keys first))
         (first :: rest) ->
  exists rows,
    save_results (first :: rest) output_file =
      Ok (CsvDocument (Dict.keys first) rows) /\
    read_back (CsvDocument (Dict.keys first) rows) =
      map (fun r => map (fun key => (key, cell r key)) (Dict.keys first))
          (first :: rest).
Proof.
  intros Hext Hkeys.
  exists (map (fun r => map (cell r) (Dict.keys first)) (first :: rest)). split.
  - unfold save_results. rewrite Hext. cbn [String.eqb Ascii.eqb Bool.eqb].
    cbv beta iota.
    assert (E : mapM (_dict_to_list (Dict.keys first)) (first :: rest) =
                Ok (map (fun r => map (cell r) (Dict.keys first)) (first :: rest))).
    { induction Hkeys as [|r l Hr _ IH]; [reflexivity|].
      cbn [mapM map]. rewrite (_dict_to_list_cells _ _ Hr). cbn [bind].
      now rewrite IH. }
    now rewrite E.
  - unfold read_back. rewrite map_map. apply map_ext. intros r.
    apply combine_map_self.
Qed.

Lemma _dict_to_list_raises (fieldnames : list string) (rowdict : Dict.t)
    (k : string) :
  In k (Dict.keys rowdict) -> ~ In k fieldnames ->
  exists msg, _dict_to_list fieldnames rowdict = Raise (ValueError msg).
Proof.
  intros Hk Hnot. unfold _dict_to_list.
  destruct (filter _ (Dict.keys rowdict)) as [|w ws] eqn:E.
  - assert (Hin : In k (filter (fun k => negb (Dict.mem k fieldnames))
                               (Dict.keys rowdict))).
    { apply filter_In. split; [exact Hk|].
      destruct (Dict.mem k fieldnames) eqn:Em; [|reflexivity].
      now apply mem_In in Em. }
    rewrite E in Hin. destruct Hin.
  - eexists. reflexivity.
Qed.

(** The writer raises as soon as one record has a key that the first record
    does not have. *)
Lemma save_results_csv_raises (first : Dict.t) (rest : list Dict.t)
    (output_file : string) (r : Dict.t) (k : string) :
  lower (last_piece "" output_file) = "csv" ->
  In r rest -> In k (Dict.keys r) -> ~ In k (Dict.keys first) ->
  exists msg, save_results (first :: rest) output_file = Raise (ValueError msg).
Proof.
  intros Hext Hr Hk Hnot. unfold save_results. rewrite Hext.
  cbn [String.eqb Ascii.eqb Bool.eqb]. cbv beta iota.
  assert (E : exists msg, mapM (_dict_to_list (Dict.keys first)) (first :: rest) =
                          Raise (ValueError msg)).
  { cbn [mapM]. rewrite _dict_to_list_cells by auto. cbn [bind].
    assert (E : exists msg, mapM (_dict_to_list (Dict.keys first)) rest =
                            Raise (ValueError msg)).
    { clear -Hr Hk Hnot. induction rest as [|r' rest IH]; [destruct Hr|].
      cbn [mapM].
      destruct (_dict_to_list (Dict.keys first) r') as [row|e] eqn:Er.
      - cbn [bind]. destruct Hr as [-> | Hr].
        + destruct (_dict_to_list_raises _ _ _ Hk Hnot) as [msg Hm]. congruence.
        + destruct (IH Hr) as [msg Hm]. rewrite Hm. now exists msg.
      - cbn [bind]. unfold _dict_to_list in Er.
        destruct (filter _ (Dict.keys r')); [discriminate|].
        injection Er as <-. eexists. reflexivity. }
    destruct E as [msg Hm]. rewrite Hm. now exists msg. }
  destruct E as [msg Hm]. rewrite Hm. now exists msg.
Qed.

(** ** The credential source *)

Section Strip.

Lemma all_space_nil : all_space "".
Proof. constructor. Qed.

Lemma all_space_cons (c : ascii) (s : string) :
  all_space (String c s) <-> is_space c = true /\ all_space s.
Proof.
  unfold all_space. simpl. split.
  - intros H. inversion H; subst. now split.
  - intros [H1 H2]. now constructor.
Qed.

Lemma all_space_app (a b : string) :
  all_space (a ++ b) <-> all_space a /\ all_space b.
Proof.
  induction a as [|c a IH]; simpl.
  - split; [intros H; split; [apply all_space_nil | exact H] | tauto].
  - rewrite !all_space_cons, IH. tauto.
Qed.

Lemma is_blank_all_space (s : string) : is_blank s = true <-> all_space s.
Proof.
  unfold is_blank, all_space. rewrite forallb_forall, Forall_forall. reflexivity.
Qed.

Lemma lstrip_spec (s : string) :
  exists before,
    s = (before ++ lstrip s)%string /\ all_space before /\
    forall c rest, lstrip s = String c rest -> is_space c = false.
Proof.
  induction s as [|c s [before [E [Hb Hh]]]]; simpl.
  - exists ""%string. repeat split; [apply all_space_nil | discriminate].
  - destruct (is_space c) eqn:Hc.
    + exists (String c before). simpl. rewrite <- E.
      repeat split; [now apply all_space_cons | exact Hh].
    + exists ""%string. repeat split; [apply all_space_nil|].
      now intros c' rest [= <- _].
Qed.

Lemma rstrip_spec (s : string) :
  exists after,
    s = (rstrip s ++ after)%string /\ all_space after /\
    forall init c, rstrip s = (init ++ String c "")%string -> is_space c = false.
Proof.
  induction s as [|c s [after [E [Ha Hl]]]]; simpl.
  - exists ""%string. repeat split; [apply all_space_nil|].
    intros [|? ?] c; discriminate.
  - destruct (is_space c && (rstrip s =? "")) eqn:Hc.
    + apply andb_prop in Hc. destruct Hc as [Hc Hr].
      apply String.eqb_eq in Hr. rewrite Hr in E. simpl in E.
      exists (String c after). simpl.
      split; [now f_equal|]. split; [now apply all_space_cons|].
      intros [|? ?] c'; discriminate.
    + exists after. simpl. rewrite <- E. repeat split; [exact Ha|].
      intros [|c0 init] c'; simpl.
      * intros [= <- Hr]. rewrite Hr in Hc. simpl in Hc.
        now rewrite andb_true_r in Hc.
      * intros [= _ Hr]. now apply (Hl init).
Qed.

(** [rstrip] keeps the first character of what it returns. *)
Lemma rstrip_head (s : string) (c : ascii) (rest : string) :
  rstrip s = String c rest -> exists rest', s = String c rest'.
Proof.
  destruct s as [|c' s]; simpl; [discriminate|].
  destruct (is_space c' && (rstrip s =? "")); [discriminate|].
  intros [= <- _]. now exists s.
Qed.

Lemma strip_stripped (line : string) : stripped line (strip line).
Proof.
  unfold stripped, strip, trimmed.
  destruct (lstrip_spec line) as [before [E [Hb Hh]]].
  destruct (rstrip_spec (lstrip line)) as [after [E' [Ha Hl]]].
  split; [split|].
  - intros c rest H. destruct (rstrip_head _ _ _ H) as [rest' H'].
    now apply (Hh c rest').
  - exact Hl.
  - exists before, after. repeat split; trivial. now rewrite <- E'.
Qed.

Lemma lstrip_all_space (s : string) : all_space s -> lstrip s = "".
Proof.
  induction s as [|c s IH]; simpl; trivial.
  rewrite all_space_cons. intros [-> H]. now apply IH.
Qed.

Lemma strip_empty_iff (line : string) : strip line = "" <-> all_space line.
Proof.
  split.
  - intros H. destruct (strip_stripped line) as [_ [before [after [E [Hb Ha]]]]].
    rewrite H in E. rewrite E. simpl. now apply all_space_app.
  - intros H. unfold strip. now rewrite (lstrip_all_space _ H).
Qed.

Lemma strip_blank (line : string) :
  negb (strip line =? "") = negb (is_blank line).
Proof.
  f_equal. apply eq_true_iff_eq.
  now rewrite String.eqb_eq, strip_empty_iff, is_blank_all_space.
Qed.

Lemma concat_cons (x : string) (l : list string) :
  String.concat "" (x :: l) = (x ++ String.concat "" l)%string.
Proof.
  destruct l as [|y l]; simpl; trivial. now rewrite append_empty_r.
Qed.

(** The lines of a file, put end to end, are its content. *)
Lemma lines_from_concat (line s : string) :
  String.concat "" (lines_from line s) = (line ++ s)%string.
Proof.
  revert line. induction s as [|c s IH]; intros line; cbn [lines_from].
  - destruct (String.eqb_spec line "") as [->|Hne]; simpl; trivial.
    now rewrite append_empty_r.
  - destruct (c =? LF)%char eqn:Ec.
    + apply Ascii.eqb_eq in Ec. subst c.
      now rewrite concat_cons, IH, append_assoc.
    + now rewrite IH, append_assoc.
Qed.

Lemma lstrip_app_space (a x : string) :
  all_space a -> lstrip (a ++ x) = lstrip x.
Proof.
  induction a as [|c a IH]; simpl; trivial.
  rewrite all_space_cons. intros [-> H]. now apply IH.
Qed.

Lemma lstrip_fixed (x : string) :
  (forall c rest, x = String c rest -> is_space c = false) -> lstrip x = x.
Proof.
  destruct x as [|c x]; simpl; trivial.
  intros H. now rewrite (H c x eq_refl).
Qed.

Lemma rstrip_all_space (b : string) : all_space b -> rstrip b = "".
Proof.
  induction b as [|c b IH]; simpl; trivial.
  rewrite all_space_cons. intros [-> H]. now rewrite (IH H).
Qed.

Lemma rstrip_app_space (e b : string) :
  (forall init c, e = (init ++ String c "")%string -> is_space c = false) ->
  all_space b -> rstrip (e ++ b) = e.
Proof.
  intros He Hb. induction e as [|c e IH]; simpl.
  - now apply rstrip_all_space.
  - rewrite IH by (intros init c' ->; now apply (He (String c init) c')).
    destruct e as [|c' e]; simpl.
    + now rewrite (He "" c eq_refl).
    + now rewrite andb_false_r.
Qed.

(** [stripped] determines its result: it is [strip line]. *)
Lemma stripped_unique (line e : string) : stripped line e -> e = strip line.
Proof.
  intros [[Hh Hl] [before [after [-> [Hb Ha]]]]]. unfold strip.
  rewrite (lstrip_app_space _ _ Hb).
  destruct e as [|c e].
  - simpl. now rewrite (lstrip_all_space _ Ha).
  - rewrite lstrip_fixed.
    + now rewrite rstrip_app_space.
    + simpl. intros c' rest [= <- _]. now apply (Hh c e).
Qed.

End Strip.

(** C10: the loader returns, in file order, the lines that are not made of
    whitespace only, each one without its leading and trailing whitespace:
    a kept line is the returned entry surrounded by whitespace, and the
    entry neither starts nor ends with whitespace.  A line of whitespace is
    dropped and ["  admin  "] is returned as ["admin"]. *)
Theorem load_credentials_strips (content : string) :
  Forall2 stripped
          (filter (fun line => negb (is_blank line)) (file_lines content))
          (load_credentials_from_file content) /\
  Forall (fun e => e <> "" /\ trimmed e) (load_credentials_from_file content) /\
  String.concat "" (file_lines content) = universal_newlines content /\
  load_credentials_from_file
    ("  admin  " ++ String LF ("   " ++ String CR (String LF " root")))%string =
    ["admin"; "root"].
Proof.
  unfold load_credentials_from_file.
  rewrite (filter_ext _ _ strip_blank).
  split; [|split; [|split]].
  - induction (filter _ (file_lines content)) as [|line l IH]; simpl;
      constructor; [apply strip_stripped | exact IH].
  - apply Forall_forall. intros e He. apply in_map_iff in He.
    destruct He as [line [<- Hin]]. apply filter_In in Hin.
    destruct Hin as [_ Hb]. split.
    + intros E. apply strip_empty_iff, is_blank_all_space in E.
      now rewrite E in Hb.
    + apply strip_stripped.
  - apply (lines_from_concat "").
  - reflexivity.
Qed.

(** * Further properties of the program *)

(** ** The classifier, all three rules *)

Lemma rule_fires (indicator : option string) (body : string) :
  truthy_opt indicator &&
  match indicator with
  | Some s => str_in s body
  | None => false
  end = true <-> fires indicator body.
Proof.
  unfold fires. destruct indicator as [s|]; simpl.
  - rewrite andb_true_iff, negb_true_iff, String.eqb_neq, str_in_occurs. split.
    + intros [Hne Hin]. now exists s.
    + intros [s' [[= <-] H]]. exact H.
  - split; [discriminate | intros [s [[=] _]]].
Qed.

(** X1: the verdict of the classifier is success exactly when the success
    indicator is configured and occurs in the body, or else when the
    failure indicator does not apply and the status code is 200.  In
    particular a page with status 200 that shows the failure indicator, and
    not the success indicator, is a failure. *)
Theorem classifier_decision (self : LoginTester) (response : Response) :
  _is_successful_login self response = true <->
  fires (success_indicator self) (text response) \/
  (~ fires (failure_indicator self) (text response) /\
   status_code response = 200%Z).
Proof.
  unfold _is_successful_login.
  pose proof (rule_fires (success_indicator self) (text response)) as Hs.
  pose proof (rule_fires (failure_indicator self) (text response)) as Hf.
  destruct (truthy_opt (success_indicator self) && _).
  - split; [intros _; left; now apply Hs | reflexivity].
  - destruct (truthy_opt (failure_indicator self) && _).
    + split; [discriminate|].
      intros [H | [H _]]; [apply Hs in H; discriminate H|].
      exfalso. apply H. now apply Hf.
    + destruct (Z.eqb_spec (status_code response) 200) as [E|E].
      * split; [intros _; right; split; trivial|reflexivity].
        intros H. apply Hf in H. discriminate H.
      * split; [discriminate|].
        intros [H | [_ H]]; [apply Hs in H; discriminate H | contradiction].
Qed.

(** ** The request of an attempt *)

Lemma login_request_form (self : LoginTester) (u p : string) :
  login_request self u p =
  mkRequest (url self) (form_data self u p) (headers self) (timeout self).
Proof.
  unfold login_request, form_data, Dict.literal, Dict.update, Dict.empty.
  simpl. destruct (String.eqb_spec (username_field self) (password_field self))
    as [E|E]; [now rewrite E | reflexivity].
Qed.

(** X2: the result of [test_login] depends on the network only through
    the reply to one request: the configured URL, headers and timeout, and
    the form data that maps the username field to the username and the
    password field to the password.  When the two field names are the same
    the form holds the password alone, so that the same request is sent for
    every username. *)
Theorem test_login_posts_form (self : LoginTester) (net net' : Net) (k : nat)
    (u p : string) :
  (net k (mkRequest (url self) (form_data self u p) (headers self) (timeout self)) =
   net' k (mkRequest (url self) (form_data self u p) (headers self) (timeout self)) ->
   test_login self net k u p = test_login self net' k u p) /\
  (username_field self = password_field self ->
   forall u', form_data self u p = form_data self u' p).
Proof.
  split.
  - intros H. rewrite <- !login_request_form in H.
    unfold test_login. fold (login_request self u p). now rewrite H.
  - intros E u'. unfold form_data. now rewrite E, String.eqb_refl.
Qed.

Lemma test_login_posts_form_witness :
  test_login Sample.plain Sample.net_first_times_out 1 "bob" "pw1" =
  test_login Sample.plain Sample.net_first_crashes 1 "bob" "pw1".
Proof.
  apply (test_login_posts_form Sample.plain Sample.net_first_times_out
           Sample.net_first_crashes 1 "bob" "pw1").
  reflexivity.
Defined.

(** ** The Cartesian product, with repetitions *)

Lemma count_pair_row (u' u p : string) (passwords : list string) :
  count_pair u p (map (fun q => (u', q)) passwords) =
  if u' =? u then count_string p passwords else 0.
Proof.
  unfold count_pair, count_string.
  induction passwords as [|q qs IH]; simpl.
  - now destruct (u' =? u).
  - destruct (u' =? u); simpl in *; [|exact IH].
    destruct (q =? p); simpl; congruence.
Qed.

(** X3: repetitions in the input lists are kept: a pair is attempted as
    many times as its username occurs among the usernames times its
    password occurs among the passwords, and a pair made of a username or a
    password that was not given is never attempted. *)
Theorem test_combinations_count (usernames passwords : list string)
    (u p : string) :
  count_pair u p (test_combinations usernames passwords) =
  count_string u usernames * count_string p passwords.
Proof.
  unfold test_combinations.
  induction usernames as [|u' us IH]; [reflexivity|].
  cbn [flat_map]. unfold count_pair in *.
  rewrite filter_app, length_app, IH.
  fold (count_pair u p (map (fun q => (u', q)) passwords)).
  rewrite count_pair_row. unfold count_string. cbn [filter].
  destruct (u' =? u); cbn [length]; lia.
Qed.

(** ** The two modes *)

Section Modes.

Variable self : LoginTester.
Variable net : Net.



Lemma _run_sequential_loop_raises (todo : list (string * string)) (n i : nat)
    (acc : list Dict.t) (k : nat) (u p : string) (e : Exn) :
  (0 < k -> ordinary_delay (delay self)) ->
  nth_error todo k = Some (u, p) ->
  test_login self net (i + k) u p = Raise e ->
  (forall j u' p', j < k -> nth_error todo j = Some (u', p') ->
                   exists r, test_login self net (i + j) u' p' = Ok r) ->
  _run_sequential_loop self net n i todo acc = Raise e.
Proof.
  revert i acc k.
  induction todo as [|[u0 p0] todo IH]; intros i acc k Hd Hk He Hbefore.
  - destruct k; discriminate.
  - destruct k as [|k]; simpl in Hk.
    + injection Hk as -> ->. rewrite Nat.add_0_r in He. simpl. now rewrite He.
    + destruct (Hbefore 0 u0 p0) as [r Hr]; [lia | reflexivity|].
      rewrite Nat.add_0_r in Hr. simpl. rewrite Hr. simpl.
      assert (Ho : ordinary_delay (delay self)) by (apply Hd; lia).
      rewrite (sleep_returns _ Ho).
      assert (G : _run_sequential_loop self net n (S i) todo (acc ++ [r]) =
                  Raise e).
      { apply (IH (S i) (acc ++ [r]) k); trivial.
        - now rewrite Nat.add_succ_l, <- Nat.add_succ_r.
        - intros j u' p' Hj Hn. rewrite Nat.add_succ_l, <- Nat.add_succ_r.
          apply Hbefore; [lia | exact Hn]. }
      now destruct (S i <? n)%nat.
Qed.

(** X6: in sequential mode the first attempt that raises an exception
    other than a [RequestException] ends the run with that exception: the
    records of the attempts made before it are not returned and the pairs
    after it are not tried.  When it is not the first attempt of the run,
    the delay slept before it is taken to be an ordinary one (between 0 and
    a million seconds). *)
Theorem sequential_first_exception (completion : list nat)
    (usernames passwords : list string) (k : nat) (u p : string) (e : Exn) :
  (0 < k -> ordinary_delay (delay self)) ->
  nth_error (test_combinations usernames passwords) k = Some (u, p) ->
  test_login self net k u p = Raise e ->
  (forall j u' p', j < k ->
     nth_error (test_combinations usernames passwords) j = Some (u', p') ->
     exists r, test_login self net j u' p' = Ok r) ->
  run_tests self net completion usernames passwords false = Raise e /\
  forall msg, e <> RequestException msg.
Proof.
  intros Hd Hk He Hbefore. split.
  - unfold run_tests, _run_sequential.
    now apply (_run_sequential_loop_raises _ _ 0 [] k u p e).
  - now apply (test_login_Raise_inv self net k u p e).
Qed.

Lemma sleep_refuses_negative (seconds : Q) :
  (inject_Z (-1000000) <= seconds)%Q -> (seconds < 0)%Q ->
  sleep seconds = Raise (ValueError "sleep length must be non-negative").
Proof.
  intros H1 H0. unfold sleep.
  assert (Hmin : Qle_bool PyTime_MIN (seconds * inject_Z 1000000000) = true).
  { apply Qle_bool_iff. unfold PyTime_MIN, Qle, Qlt, Qmult, inject_Z in *.
    simpl in *. nia. }
  assert (Hmax : Qle_bool (seconds * inject_Z 1000000000) PyTime_MAX = true).
  { apply Qle_bool_iff. unfold PyTime_MAX, Qle, Qlt, Qmult, inject_Z in *.
    simpl in *. nia. }
  rewrite Hmin, Hmax. simpl.
  destruct (Qle_bool 0 seconds) eqn:E; [|reflexivity].
  apply Qle_bool_iff in E. exfalso. now apply (Qlt_not_le _ _ H0).
Qed.

Lemma sleep_overflows (seconds : Q) :
  (inject_Z 10000000000 <= seconds)%Q \/ (seconds <= inject_Z (-10000000000))%Q ->
  sleep seconds =
  Raise (OtherException "timestamp too large to convert to C _PyTime_t").
Proof.
  intros H. unfold sleep.
  destruct (Qle_bool PyTime_MIN (seconds * inject_Z 1000000000)) eqn:Emin;
    [|reflexivity].
  destruct (Qle_bool (seconds * inject_Z 1000000000) PyTime_MAX) eqn:Emax;
    [|reflexivity].
  exfalso. apply Qle_bool_iff in Emin, Emax.
  unfold PyTime_MIN, PyTime_MAX, Qle, Qmult, inject_Z in *. simpl in *.
  destruct H; nia.
Qed.

(** X7: the delay is slept between two attempts only.  A run over a single
    pair returns whatever the delay is.  A run over two pairs or more ends
    as soon as its first attempt has returned when [time.sleep] refuses the
    delay: in [ValueError] for a negative delay (down to minus a million
    seconds), and in [OverflowError] for a delay of ten thousand million
    seconds or more of either sign, which no longer fits the conversion to
    nanoseconds. *)
Theorem pacing_between_attempts (completion : list nat)
    (usernames passwords : list string) :
  (length (test_combinations usernames passwords) <= 1 ->
   no_unexpected_exception self net (test_combinations usernames passwords) ->
   exists results,
     run_tests self net completion usernames passwords false = Ok results) /\
  (2 <= length (test_combinations usernames passwords) ->
   (forall u p, nth_error (test_combinations usernames passwords) 0 = Some (u, p) ->
                exists r, test_login self net 0 u p = Ok r) ->
   ((inject_Z (-1000000) <= delay self)%Q -> (delay self < 0)%Q ->
    run_tests self net completion usernames passwords false =
    Raise (ValueError "sleep length must be non-negative")) /\
   ((inject_Z 10000000000 <= delay self)%Q \/
    (delay self <= inject_Z (-10000000000))%Q ->
    run_tests self net completion usernames passwords false =
    Raise (OtherException "timestamp too large to convert to C _PyTime_t"))).
Proof.
  unfold run_tests, _run_sequential.
  destruct (test_combinations usernames passwords) as [|[u p] [|c rest]];
    split; simpl; try lia.
  - intros _ _. now exists [].
  - intros _ H. destruct (H 0 u p eq_refl) as [r Hr]. rewrite Hr. simpl.
    now exists [r].
  - intros _ H. destruct (H u p eq_refl) as [r Hr]. rewrite Hr. simpl. split.
    + intros H1 H0. now rewrite (sleep_refuses_negative _ H1 H0).
    + intros Ho. now rewrite (sleep_overflows _ Ho).
Qed.

End Modes.


Lemma sequential_first_exception_witness :
  run_tests Sample.plain Sample.net_second_crashes [] Sample.users
    Sample.passwords false = Raise (OtherException "internal fault").
Proof.
  apply (sequential_first_exception Sample.plain Sample.net_second_crashes []
           Sample.users Sample.passwords 1 "alice" "pw2").
  - intros _. split; discriminate.
  - reflexivity.
  - reflexivity.
  - intros [|j] u p Hj _; [|lia]. eexists. reflexivity.
Defined.

Lemma pacing_between_attempts_witness :
  (exists results,
     run_tests Sample.negative_delay Sample.net_ok [] ["alice"] ["pw1"] false =
     Ok results) /\
  run_tests Sample.negative_delay Sample.net_ok [] Sample.users Sample.passwords
    false = Raise (ValueError "sleep length must be non-negative") /\
  run_tests Sample.huge_delay Sample.net_ok [] Sample.users Sample.passwords
    false =
    Raise (OtherException "timestamp too large to convert to C _PyTime_t").
Proof.
  split; [|split].
  - apply (pacing_between_attempts Sample.negative_delay Sample.net_ok []
             ["alice"] ["pw1"]).
    + simpl. lia.
    + intros k u p _. eexists. reflexivity.
  - apply (pacing_between_attempts Sample.negative_delay Sample.net_ok []
             Sample.users Sample.passwords).
    + simpl. lia.
    + intros u p _. eexists. reflexivity.
    + discriminate.
    + reflexivity.
  - apply (pacing_between_attempts Sample.huge_delay Sample.net_ok []
             Sample.users Sample.passwords).
    + simpl. lia.
    + intros u p _. eexists. reflexivity.
    + left. discriminate.
Defined.

Lemma run_tests_parallel_pairs_witness :
  exists results,
    run_tests Sample.plain Sample.net_first_crashes [1; 0; 2; 3]
      Sample.users Sample.passwords true = Ok results /\
    length results = 2 * 2.
Proof.
  destruct (run_tests_parallel_pairs Sample.plain Sample.net_first_crashes
              [1; 0; 2; 3] Sample.users Sample.passwords)
    as [results [E [H _]]].
  - reflexivity.
  - apply perm_swap.
  - exists results. now split.
Defined.

(** ** The report, continued *)

Lemma mapM_map {A B : Type} (f : A -> Exc B) (g : A -> B) (l : list A) :
  Forall (fun a => f a = Ok (g a)) l -> mapM f l = Ok (map g l).
Proof.
  induction 1 as [|a l Ha _ IH]; simpl; trivial. now rewrite Ha, IH.
Qed.

Lemma mapM_Ok_inv {A B : Type} (f : A -> Exc B) (l : list A) (bs : list B) :
  mapM f l = Ok bs -> Forall2 (fun a b => f a = Ok b) l bs.
Proof.
  revert bs. induction l as [|a l IH]; simpl; intros bs.
  - intros [= <-]. constructor.
  - destruct (f a) as [b|e] eqn:E; simpl; [|discriminate].
    destruct (mapM f l) as [bs'|e]; simpl; [|discriminate].
    intros [= <-]. constructor; [exact E | now apply IH].
Qed.

Lemma credential_line_printed (r : Dict.t) :
  (exists pair, record_pair r = Some pair) ->
  (u <- Dict.item "username" r ;;
   p <- Dict.item "password" r ;;
   Ok (str u ++ ":" ++ str p)%string) = Ok (credential_line r).
Proof.
  intros [[u p] H]. unfold credential_line. rewrite H.
  unfold record_pair in H. unfold Dict.item.
  destruct (Dict.get "username" r) as [[| | | |u']|]; try discriminate.
  destruct (Dict.get "password" r) as [[| | | |p']|]; try discriminate.
  now injection H as -> ->.
Qed.

(** What a report that was produced holds, field by field. *)
Lemma generate_report_inv (results : list Dict.t) (rep : Report) :
  generate_report results = Ok (Some rep) ->
  let hits := filter success_flag results in
  results <> [] /\
  total rep = Z.of_nat (length results) /\
  successful rep = Z.of_nat (length hits) /\
  failed rep = (total rep - successful rep)%Z /\
  success_rate_percent rep =
    (inject_Z (successful rep) / inject_Z (total rep) * 100)%Q /\
  (if (successful rep >? 0)%Z
   then mapM (fun result =>
                u <- Dict.item "username" result ;;
                p <- Dict.item "password" result ;;
                Ok (str u ++ ":" ++ str p)%string) hits = Ok (credentials rep)
   else credentials rep = []).
Proof.
  destruct results as [|r0 rest]; [discriminate|].
  assert (Hne : r0 :: rest <> []) by discriminate.
  unfold generate_report.
  remember (r0 :: rest) as results eqn:Hres.
  remember (filter success_flag results) as hits eqn:Hhits.
  remember (Z.of_nat (length results)) as t eqn:Ht.
  remember (Z.of_nat (length hits)) as n eqn:Hn.
  unfold truediv. destruct (t =? 0)%Z; [discriminate|].
  unfold bind at 1. cbv beta iota.
  destruct (n >? 0)%Z eqn:Epos.
  - destruct (mapM _ hits) as [lines|e] eqn:E; [|discriminate].
    unfold bind. intros [= <-].
    cbn [total successful failed success_rate_percent credentials].
    rewrite Epos. now repeat split.
  - unfold bind. intros [= <-].
    cbn [total successful failed success_rate_percent credentials].
    rewrite Epos. now repeat split.
Qed.

(** X8: the report lists the credentials of exactly the successful
    records, as [username:password], in the order of the result list (the
    completion order after a concurrent run), and nothing when no attempt
    succeeded. *)
Theorem report_lists_successful_pairs (results : list Dict.t) (rep : Report) :
  Forall (fun r => exists pair, record_pair r = Some pair) results ->
  generate_report results = Ok (Some rep) ->
  credentials rep = map credential_line (filter success_flag results).
Proof.
  intros Hpairs E. apply generate_report_inv in E. cbv zeta in E.
  destruct E as [_ [_ [Hs [_ [_ Hc]]]]].
  destruct (successful rep >? 0)%Z eqn:Epos.
  - rewrite (mapM_map _ credential_line) in Hc; [congruence|].
    apply Forall_forall. intros r Hr. apply filter_In in Hr.
    apply credential_line_printed. rewrite Forall_forall in Hpairs.
    now apply Hpairs.
  - rewrite Hc. rewrite Hs in Epos.
    destruct (filter success_flag results); [reflexivity|].
    cbn [length] in Epos. rewrite Z.gtb_ltb in Epos.
    apply Z.ltb_ge in Epos. lia.
Qed.

Section ReportOfRun.

Variable self : LoginTester.
Variable net : Net.

Lemma recorded_has_pair (combos : list (string * string)) (k : nat)
    (r : Dict.t) :
  recorded self net combos k r -> exists pair, record_pair r = Some pair.
Proof.
  intros [u [p [_ ->]]]. exists (u, p).
  apply (future_record_fields self net k u p).
Qed.

Lemma run_records_have_pairs (completion : list nat)
    (usernames passwords : list string) (parallel : bool)
    (results : list Dict.t) :
  (parallel = true ->
   completion_order completion (length (test_combinations usernames passwords))) ->
  run_tests self net completion usernames passwords parallel = Ok results ->
  Forall (fun r => exists pair, record_pair r = Some pair) results /\
  length results = length usernames * length passwords.
Proof.
  intros Hc E.
  pose proof (run_tests_recorded self net completion usernames passwords
                parallel results Hc E) as H. cbv zeta in H.
  split.
  - clear -H. induction H as [|k r order results Hr _ IH]; constructor; trivial.
    exact (recorded_has_pair _ k r Hr).
  - rewrite <- (Forall2_length H), <- test_combinations_length.
    unfold arrival_order. destruct parallel.
    + rewrite (Permutation_length (Hc eq_refl)). apply length_seq.
    + apply length_seq.
Qed.

Lemma generate_report_returns (results : list Dict.t) :
  Forall (fun r => exists pair, record_pair r = Some pair) results ->
  exists report,
    generate_report results = Ok report /\
    (report = None <-> results = []) /\
    forall rep, report = Some rep -> total rep = Z.of_nat (length results).
Proof.
  intros Hpairs. destruct results as [|r0 rest].
  { exists None. repeat split; trivial. discriminate. }
  set (results := r0 :: rest) in *.
  assert (Hlines : mapM (fun result =>
                           u <- Dict.item "username" result ;;
                           p <- Dict.item "password" result ;;
                           Ok (str u ++ ":" ++ str p)%string)
                        (filter success_flag results) =
                   Ok (map credential_line (filter success_flag results))).
  { apply mapM_map, Forall_forall. intros r Hr. apply filter_In in Hr.
    apply credential_line_printed. rewrite Forall_forall in Hpairs.
    now apply Hpairs. }
  unfold generate_report. fold results. unfold truediv.
  assert (Hz : (Z.of_nat (length results) =? 0)%Z = false)
    by (apply Z.eqb_neq; unfold results; cbn [length]; lia).
  rewrite Hz. unfold bind at 1. cbv beta iota. rewrite Hlines.
  destruct (_ >? 0)%Z; (eexists; split; [reflexivity|]; split;
    [split; discriminate | now intros rep [= <-]]).
Qed.

(** X10: the report can always be produced from what [run_tests] returns,
    in either mode and whatever happened to the attempts: it never raises,
    it is absent only for an empty result list, and its total is the number
    of usernames times the number of passwords. *)
Theorem report_of_run (completion : list nat)
    (usernames passwords : list string) (parallel : bool)
    (results : list Dict.t) :
  (parallel = true ->
   completion_order completion (length (test_combinations usernames passwords))) ->
  run_tests self net completion usernames passwords parallel = Ok results ->
  exists report,
    generate_report results = Ok report /\
    (report = None <-> results = []) /\
    forall rep, report = Some rep ->
      total rep = Z.of_nat (length usernames * length passwords).
Proof.
  intros Hc E.
  destruct (run_records_have_pairs completion usernames passwords parallel
              results Hc E) as [Hpairs Hlen].
  destruct (generate_report_returns results Hpairs) as [report [Hr [Hn Ht]]].
  exists report. split; [exact Hr|]. split; [exact Hn|].
  intros rep Hrep. rewrite <- Hlen. now apply Ht.
Qed.

End ReportOfRun.

(** ** The persistence sink, continued *)

Lemma last_piece_no_dot (piece ext : string) :
  ~ has_char "." ext -> last_piece piece ext = (piece ++ ext)%string.
Proof.
  revert piece. induction ext as [|c ext IH]; intros piece H; simpl.
  - now rewrite append_empty_r.
  - unfold is_dot. destruct (Ascii.eqb_spec c ".") as [->|Hc].
    + exfalso. apply H. now left.
    + rewrite IH, append_assoc; [reflexivity|].
      intros Hin. apply H. now right.
Qed.

Lemma last_piece_after_dot (piece stem ext : string) :
  ~ has_char "." ext ->
  last_piece piece (stem ++ String "." ext) = ext.
Proof.
  intros H. revert piece. induction stem as [|c stem IH]; intros piece; simpl.
  - now rewrite last_piece_no_dot.
  - destruct (is_dot c); apply IH.
Qed.

(** X11: the output format is chosen by what follows the last dot of the
    file name, whatever its case and whatever dots the stem or the
    directories contain: [json] stores the list as it is, [csv] on an empty
    list writes nothing and returns, and any other extension raises
    [ValueError] naming it. *)
Theorem save_results_format (results : list Dict.t) (stem ext : string) :
  ~ has_char "." ext ->
  (lower ext = "json" ->
   save_results results (stem ++ String "." ext) = Ok (JsonDocument results)) /\
  (lower ext = "csv" ->
   save_results [] (stem ++ String "." ext) = Ok NothingWritten) /\
  (lower ext <> "json" -> lower ext <> "csv" ->
   save_results results (stem ++ String "." ext) =
   Raise (ValueError ("Unsupported file format: " ++ lower ext))).
Proof.
  intros H. unfold save_results. rewrite (last_piece_after_dot _ _ _ H).
  split; [|split].
  - now intros ->.
  - now intros ->.
  - intros Hj Hc. apply String.eqb_neq in Hj, Hc. now rewrite Hj, Hc.
Qed.

Lemma save_results_format_witness :
  save_results [Sample.nameless] "out.v2/run.tar.JSON" =
    Ok (JsonDocument [Sample.nameless]) /\
  save_results [Sample.nameless] "results.txt" =
    Raise (ValueError "Unsupported file format: txt").
Proof.
  split.
  - apply (save_results_format [Sample.nameless] "out.v2/run.tar" "JSON").
    + unfold has_char. simpl. intuition discriminate.
    + reflexivity.
  - apply (save_results_format [Sample.nameless] "results" "txt").
    + unfold has_char. simpl. intuition discriminate.
    + discriminate.
    + discriminate.
Defined.

Lemma _dict_to_list_Ok_inv (fieldnames : list string) (rowdict : Dict.t)
    (row : list string) :
  _dict_to_list fieldnames rowdict = Ok row ->
  row = map (cell rowdict) fieldnames /\
  forall k, In k (Dict.keys rowdict) -> In k fieldnames.
Proof.
  intros E.
  assert (Hkeys : forall k, In k (Dict.keys rowdict) -> In k fieldnames).
  { intros k Hk. destruct (Dict.mem k fieldnames) eqn:Em.
    - now apply mem_In.
    - exfalso. destruct (_dict_to_list_raises fieldnames rowdict k Hk) as [msg Hm].
      + intros Hin. apply mem_In in Hin. congruence.
      + congruence. }
  split; [|exact Hkeys].
  rewrite (_dict_to_list_cells _ _ Hkeys) in E. congruence.
Qed.

(** X12: a CSV document that was written is a full table of the result
    list: its header is the key list of the first record, it has one row
    per record in the order of the list, every row holds the cell of each
    header field ([None] and a missing field as the empty string), and no
    record had a field outside the header. *)
Theorem csv_document_shape (results : list Dict.t) (output_file : string)
    (header : list string) (rows : list (list string)) :
  save_results results output_file = Ok (CsvDocument header rows) ->
  (exists first rest, results = first :: rest /\ header = Dict.keys first) /\
  rows = map (fun r => map (cell r) header) results /\
  length rows = length results /\
  Forall (fun row => length row = length header) rows /\
  Forall (fun r => forall k, In k (Dict.keys r) -> In k header) results.
Proof.
  unfold save_results.
  destruct (lower (last_piece "" output_file) =? "json"); [discriminate|].
  destruct (lower (last_piece "" output_file) =? "csv"); [|discriminate].
  destruct results as [|first rest]; [discriminate|].
  set (results := first :: rest).
  destruct (mapM _ results) as [rows'|e] eqn:E; simpl; [|discriminate].
  intros [= <- <-]. apply mapM_Ok_inv in E.
  assert (Hrows : rows' = map (fun r => map (cell r) (Dict.keys first)) results /\
                  Forall (fun r => forall k, In k (Dict.keys r) ->
                                             In k (Dict.keys first)) results).
  { clear -E. induction E as [|r row rs rows Hr _ [IH1 IH2]].
    - split; [reflexivity | constructor].
    - apply _dict_to_list_Ok_inv in Hr. destruct Hr as [-> Hk]. split.
      + simpl. now rewrite IH1.
      + now constructor. }
  destruct Hrows as [Hrows Hkeys]. split; [now exists first, rest|].
  split; [exact Hrows|]. split; [|split; [|exact Hkeys]].
  - now rewrite Hrows, length_map.
  - rewrite Hrows. apply Forall_forall. intros row Hrow.
    apply in_map_iff in Hrow. destruct Hrow as [r [<- _]]. apply length_map.
Qed.

Lemma csv_document_shape_witness :
  exists rows,
    save_results [completed_record Sample.plain "alice" "pw1" Sample.ok_page 120;
                  error_record "alice" "pw2" "Read timed out."] "results.csv" =
      Ok (CsvDocument completed_keys rows) /\
    length rows = 2.
Proof.
  assert (E : save_results
                [completed_record Sample.plain "alice" "pw1" Sample.ok_page 120;
                 error_record "alice" "pw2" "Read timed out."] "results.csv" =
              Ok (CsvDocument completed_keys
                    [["alice"; "pw1"; "True"; "200"; "0.12"; ""; "18"];
                     ["alice"; "pw2"; "False"; ""; ""; "Read timed out."; ""]]))
    by reflexivity.
  eexists. split; [exact E|].
  destruct (csv_document_shape _ _ _ _ E) as [_ [_ [H _]]]. exact H.
Defined.

Section CsvOfRun.

Variable self : LoginTester.
Variable net : Net.

Lemma recorded_keys (combos : list (string * string)) (k : nat) (r : Dict.t) :
  recorded self net combos k r ->
  (forall key, In key (Dict.keys r) -> In key completed_keys) /\
  (field_set "status_code" r = true -> Dict.keys r = completed_keys).
Proof.
  intros [u [p [_ ->]]].
  pose proof (future_record_cases self net k u p) as H. cbv zeta in H.
  destruct (net k (login_request self u p)) as [response t | e].
  - rewrite H. split; [|reflexivity].
    intros key Hk. exact Hk.
  - assert (E : future_record (test_login self net k u p, (u, p)) =
                error_record u p (str_exn e) \/
                future_record (test_login self net k u p, (u, p)) =
                crash_record u p (str_exn e))
      by (destruct e; [left | right | right | right | right]; exact H).
    destruct E as [-> | ->]; (split; [|discriminate]);
      intros key Hk; simpl in Hk; unfold completed_keys; simpl; tauto.
Qed.

(** X13: when the first record of a run comes from an attempt whose call
    completed, saving the run as CSV succeeds whatever happened to the
    other attempts: the document has the seven columns of a completed
    record and one row per credential pair. *)
Theorem csv_saved_when_first_completed (completion : list nat)
    (usernames passwords : list string) (parallel : bool)
    (first : Dict.t) (rest : list Dict.t) (output_file : string) :
  (parallel = true ->
   completion_order completion (length (test_combinations usernames passwords))) ->
  run_tests self net completion usernames passwords parallel =
    Ok (first :: rest) ->
  field_set "status_code" first = true ->
  lower (last_piece "" output_file) = "csv" ->
  exists rows,
    save_results (first :: rest) output_file =
      Ok (CsvDocument completed_keys rows) /\
    length rows = length usernames * length passwords.
Proof.
  intros Hc E Hfirst Hext.
  pose proof (run_tests_recorded self net completion usernames passwords
                parallel _ Hc E) as H. cbv zeta in H.
  destruct (run_records_have_pairs self net completion usernames passwords
              parallel _ Hc E) as [_ Hlen].
  assert (Hkeys : Dict.keys first = completed_keys /\
                  Forall (fun r => forall k, In k (Dict.keys r) ->
                                             In k completed_keys)
                         (first :: rest)).
  { clear -H Hfirst. split.
    - inversion H as [|k r order rs Hr _]; subst.
      now apply (recorded_keys _ k first Hr).
    - induction H as [|k r order rs Hr _ IH]; constructor; trivial.
      exact (proj1 (recorded_keys _ k r Hr)). }
  destruct Hkeys as [Hk Hall]. rewrite <- Hk in Hall.
  destruct (save_results_csv_read_back first rest output_file Hext Hall)
    as [rows [Es Hr]].
  rewrite Hk in Es. exists rows. split; [exact Es|].
  rewrite <- Hlen. apply (f_equal (@length _)) in Hr.
  unfold read_back in Hr. now rewrite !length_map in Hr.
Qed.

End CsvOfRun.

Lemma report_lists_successful_pairs_witness :
  exists rep,
    generate_report
      [completed_record Sample.plain "alice" "pw1" Sample.ok_page 120;
       error_record "alice" "pw2" "Read timed out.";
       completed_record Sample.plain "bob" "pw1" Sample.ok_page 95] =
      Ok (Some rep) /\
    credentials rep = ["alice:pw1"; "bob:pw1"].
Proof.
  eexists. split; [reflexivity|].
  apply (report_lists_successful_pairs
           [completed_record Sample.plain "alice" "pw1" Sample.ok_page 120;
            error_record "alice" "pw2" "Read timed out.";
            completed_record Sample.plain "bob" "pw1" Sample.ok_page 95]).
  - repeat constructor; eexists; reflexivity.
  - reflexivity.
Defined.

Lemma report_of_run_witness :
  exists results report,
    run_tests Sample.plain Sample.net_first_crashes [1; 0; 2; 3]
      Sample.users Sample.passwords true = Ok results /\
    generate_report results = Ok report.
Proof.
  edestruct (report_of_run Sample.plain Sample.net_first_crashes [1; 0; 2; 3]
               Sample.users Sample.passwords true) as [report [E _]].
  - intros _. apply perm_swap.
  - reflexivity.
  - eexists. exists report. split; [reflexivity | exact E].
Defined.

Lemma csv_saved_when_first_completed_witness :
  exists results rows,
    run_tests Sample.plain Sample.net_second_crashes [0; 1; 2; 3]
      Sample.users Sample.passwords true = Ok results /\
    save_results results "runs/out.CSV" = Ok (CsvDocument completed_keys rows) /\
    length rows = 2 * 2.
Proof.
  edestruct (csv_saved_when_first_completed Sample.plain
               Sample.net_second_crashes [0; 1; 2; 3]
               Sample.users Sample.passwords true) as [rows [E H]].
  - intros _. apply Permutation_refl.
  - reflexivity.
  - reflexivity.
  - instantiate (1 := "runs/out.CSV"). reflexivity.
  - eexists. exists rows. split; [reflexivity|]. split; [exact E | exact H].
Defined.

(** ** The credential source, continued *)

Section WordList.

Lemma universal_newlines_entry (e s : string) :
  ~ has_char CR e ->
  universal_newlines (e ++ String LF s) =
  (e ++ String LF (universal_newlines s))%string.
Proof.
  induction e as [|c e IH]; intros H.
  - reflexivity.
  - cbn [append universal_newlines].
    destruct (Ascii.eqb_spec c CR) as [->|Hc].
    + exfalso. apply H. now left.
    + rewrite IH; [reflexivity|]. intros Hin. apply H. now right.
Qed.

Lemma lines_from_entry (line e s : string) :
  ~ has_char LF e ->
  lines_from line (e ++ String LF s) =
  (line ++ e ++ String LF "")%string :: lines_from "" s.
Proof.
  revert line. induction e as [|c e IH]; intros line H.
  - cbn [append lines_from]. now rewrite Ascii.eqb_refl.
  - cbn [append lines_from].
    destruct (Ascii.eqb_spec c LF) as [->|Hc].
    + exfalso. apply H. now left.
    + rewrite IH by (intros Hin; apply H; now right).
      now rewrite append_assoc.
Qed.

Lemma file_lines_unlines (entries : list string) :
  Forall clean_entry entries ->
  file_lines (unlines entries) =
  map (fun e => (e ++ String LF "")%string) entries.
Proof.
  unfold file_lines.
  induction 1 as [|e entries [_ [_ [Hlf Hcr]]] _ IH]; [reflexivity|].
  cbn [unlines map]. rewrite (universal_newlines_entry _ _ Hcr).
  rewrite (lines_from_entry _ _ _ Hlf). now rewrite IH.
Qed.

Lemma strip_entry (e : string) :
  trimmed e -> strip (e ++ String LF "") = e.
Proof.
  intros H. symmetry. apply stripped_unique. split; [exact H|].
  exists ""%string, (String LF ""). split; [reflexivity|].
  split; [apply all_space_nil|]. apply all_space_cons.
  split; [reflexivity | apply all_space_nil].
Qed.

(** X14: a word list is read back as it was written: when every entry is
    non-empty, has no whitespace at either end and contains no line break,
    loading the text made of the entries, one per line, returns exactly the
    entries, in order and with their repetitions. *)
Theorem load_clean_word_list (entries : list string) :
  Forall clean_entry entries ->
  load_credentials_from_file (unlines entries) = entries.
Proof.
  intros H. unfold load_credentials_from_file.
  rewrite (file_lines_unlines _ H).
  induction H as [|e entries [Hne [Ht _]] _ IH]; [reflexivity|].
  cbn [map filter]. rewrite (strip_entry _ Ht).
  apply String.eqb_neq in Hne. rewrite Hne. cbn [negb map].
  now rewrite (strip_entry _ Ht), IH.
Qed.

Lemma strip_fixed_trimmed (s : string) : strip s = s -> trimmed s.
Proof.
  intros H. destruct (strip_stripped s) as [Ht _]. now rewrite H in Ht.
Qed.

End WordList.

Lemma load_clean_word_list_witness :
  load_credentials_from_file (unlines ["admin"; "john smith"; "admin"]) =
  ["admin"; "john smith"; "admin"].
Proof.
  apply (load_clean_word_list ["admin"; "john smith"; "admin"]).
  repeat constructor; try discriminate;
    try (apply strip_fixed_trimmed; reflexivity);
    unfold has_char; simpl; intuition discriminate.
Defined.

(** ** The command line *)

Section Main.

Variable args : Namespace.
Variable files : Files.

Lemma load_blank_lines (content : string) :
  Forall (fun line => is_blank line = true) (file_lines content) ->
  load_credentials_from_file content = [].
Proof.
  intros H. unfold load_credentials_from_file.
  rewrite (filter_ext _ _ strip_blank).
  induction H as [|line l Hb _ IH]; [reflexivity|].
  cbn [filter]. rewrite Hb. exact IH.
Qed.

Lemma collect_blank_file (path content : string) :
  path <> "" -> files path = Some content ->
  Forall (fun line => is_blank line = true) (file_lines content) ->
  collect_credentials files None (Some path) = Ok [].
Proof.
  intros Hp Hf Hb. unfold collect_credentials, read_text.
  apply String.eqb_neq in Hp. rewrite Hp, Hf. simpl.
  now rewrite (load_blank_lines _ Hb).
Qed.

(** X15: when the usernames come from a file alone and the file holds
    nothing but blank lines, [main] stops with the usage error, whatever
    the passwords, the network and the remaining options are: no attempt is
    made and no report is printed. *)
Theorem main_usage_error_on_blank_file (net : Net) (completion : list nat)
    (path content : string) (passwords : list string) :
  arg_usernames args = None ->
  arg_username_file args = Some path ->
  path <> "" ->
  files path = Some content ->
  Forall (fun line => is_blank line = true) (file_lines content) ->
  collect_credentials files (arg_passwords args) (arg_password_file args) =
    Ok passwords ->
  main args files net completion =
  UsageError
    "You must provide usernames and passwords either directly or through files".
Proof.
  intros Hu Hf Hp Hc Hb Hpw. unfold main.
  rewrite Hu, Hf, (collect_blank_file path content Hp Hc Hb), Hpw.
  reflexivity.
Qed.

(** X16: when the credentials are there and the run returns, [main]
    produces the report from the whole result list before it saves: the
    report is never lost to a failure of the saving step, which is handed
    exactly the list that [run_tests] returned.  In particular an output
    file with an unsupported extension is only refused after all attempts
    have been made and reported. *)
Theorem main_reports_before_saving (net : Net) (completion : list nat)
    (usernames passwords : list string) (results : list Dict.t)
    (output : string) :
  collect_credentials files (arg_usernames args) (arg_username_file args) =
    Ok usernames ->
  collect_credentials files (arg_passwords args) (arg_password_file args) =
    Ok passwords ->
  usernames <> [] -> passwords <> [] ->
  (arg_parallel args = true ->
   completion_order completion (length (test_combinations usernames passwords))) ->
  run_tests (tester_of args) net completion usernames passwords
    (arg_parallel args) = Ok results ->
  arg_output args = Some output -> output <> "" ->
  exists rep,
    generate_report results = Ok (Some rep) /\
    total rep = Z.of_nat (length usernames * length passwords) /\
    main args files net completion =
      Reported results (Some rep)
        (w <- save_results results output ;; Ok (Some w)) /\
    (lower (last_piece "" output) <> "json" ->
     lower (last_piece "" output) <> "csv" ->
     main args files net completion =
       Reported results (Some rep)
         (Raise (ValueError ("Unsupported file format: " ++
                             lower (last_piece "" output))))).
Proof.
  intros Hu Hp Hune Hpne Hc Hrun Hout Hone.
  destruct (run_records_have_pairs (tester_of args) net completion usernames
              passwords (arg_parallel args) results Hc Hrun) as [Hpairs Hlen].
  destruct (generate_report_returns results Hpairs) as [report [Hr [Hn Ht]]].
  destruct report as [rep|].
  - exists rep. split; [exact Hr|]. split.
    { rewrite <- Hlen. now apply Ht. }
    assert (Hmain : main args files net completion =
                    Reported results (Some rep)
                      (w <- save_results results output ;; Ok (Some w))).
    { unfold main. rewrite Hu, Hp.
      destruct usernames; [contradiction|]. destruct passwords; [contradiction|].
      cbn [is_empty orb]. fold (tester_of args). rewrite Hrun, Hr, Hout.
      apply String.eqb_neq in Hone. now rewrite Hone. }
    split; [exact Hmain|].
    intros Hj Hcsv. rewrite Hmain. unfold save_results.
    apply String.eqb_neq in Hj, Hcsv. now rewrite Hj, Hcsv.
  - exfalso. destruct Hn as [Hn _]. specialize (Hn eq_refl). subst results.
    simpl in Hlen. destruct usernames; [contradiction|].
    destruct passwords; [contradiction|]. simpl in Hlen. lia.
Qed.

End Main.

Lemma main_usage_error_on_blank_file_witness :
  main Sample.args_file Sample.blank_files Sample.net_ok [] =
  UsageError
    "You must provide usernames and passwords either directly or through files".
Proof.
  apply (main_usage_error_on_blank_file Sample.args_file Sample.blank_files
           Sample.net_ok [] "users.txt"
           ("   " ++ String LF (String (ascii_of_nat 9) (String LF "")))%string
           ["pw1"]).
  - reflexivity.
  - reflexivity.
  - discriminate.
  - reflexivity.
  - repeat constructor.
  - reflexivity.
Defined.

Lemma main_reports_before_saving_witness :
  exists results rep,
    main Sample.args_txt Sample.blank_files Sample.net_ok [] =
    Reported results (Some rep)
      (Raise (ValueError "Unsupported file format: txt")) /\
    total rep = 4%Z.
Proof.
  edestruct (main_reports_before_saving Sample.args_txt Sample.blank_files
               Sample.net_ok [] Sample.users Sample.passwords)
    as [rep [_ [Ht [_ H]]]].
  - reflexivity.
  - reflexivity.
  - discriminate.
  - discriminate.
  - discriminate.
  - reflexivity.
  - reflexivity.
  - discriminate.
  - eexists. exists rep. split; [|exact Ht].
    apply H; discriminate.
Defined.
